(** * Transition codec and simulator kernels of the CTM pipeline

    A shallow embedding of the two Cython kernels of
    [kolmogorov_complexity_estimator/native]:

    - [encoder.pyx]: [_encode_transition_cy], [tm_to_int], [int_to_tm_table];
    - [turing_machine_ext.pyx]: [cython_step], [check_escapee],
      [check_cycle_two].

    Python integers are [Z].  A value stored in a C [int] or [long] is a [Z]
    together with the conversion the generated C performs: a Python integer
    that does not fit raises [OverflowError], C arithmetic wraps around.
    The build targets LP64 (the CI runs on Linux): [int] has 32 bits and
    [long] has 64 bits.  Python dictionaries are [gmap]s, Python sets are
    [gset]s, Python strings are [string]s. *)

From stdpp Require Import gmap strings list fin_maps list_numbers.
From Stdlib Require Import ZArith Lia.

Local Open Scope Z_scope.

(** ** C integers *)

Module CInt.

Definition int_min : Z := - 2 ^ 31.
Definition int_max : Z := 2 ^ 31 - 1.
Definition long_min : Z := - 2 ^ 63.
Definition long_max : Z := 2 ^ 63 - 1.

Definition in_int (z : Z) : Prop := int_min <= z <= int_max.
Definition in_long (z : Z) : Prop := long_min <= z <= long_max.

Definition fits_int (z : Z) : bool := (int_min <=? z) && (z <=? int_max).
Definition fits_long (z : Z) : bool := (long_min <=? z) && (z <=? long_max).

(** Two's complement wrap-around of a mathematical result. *)
Definition wrap_int (z : Z) : Z := (z + 2 ^ 31) mod 2 ^ 32 - 2 ^ 31.
Definition wrap_long (z : Z) : Z := (z + 2 ^ 63) mod 2 ^ 64 - 2 ^ 63.

End CInt.
Import CInt.

(** ** Exceptions *)

(** The ways a kernel can fail.  [UndefinedBehaviour] stands for an access
    outside a C array or Python list compiled with [boundscheck=False]
    (or a read of a C array cell that was never written): the C standard
    gives such a run no meaning. *)
Inductive exn : Type :=
  | OverflowError
  | KeyError
  | AttributeError
  | UndefinedBehaviour.

Inductive result (A : Type) : Type :=
  | Ok (a : A)
  | Raise (e : exn).
Arguments Ok {A} a.
Arguments Raise {A} e.

#[global] Instance result_ret : MRet result := @Ok.
#[global] Instance result_bind : MBind result :=
  fun A B f m => match m with Ok a => f a | Raise e => Raise e end.

Definition is_Ok {A} (r : result A) : Prop := exists a, r = Ok a.

(** [for x in l: body] over a state [S], stopping at the first exception. *)
Fixpoint for_each {A S : Type} (l : list A) (body : A -> S -> result S) (s : S)
  : result S :=
  match l with
  | [] => Ok s
  | x :: l' => s' ← body x s; for_each l' body s'
  end.

(** Conversion of a Python integer to a C [int] / [long] variable. *)
Definition as_int (z : Z) : result Z :=
  if fits_int z then Ok z else Raise OverflowError.
Definition as_long (z : Z) : result Z :=
  if fits_long z then Ok z else Raise OverflowError.

(** ** encoder.pyx *)

Definition HALT_STATE_C : Z := 0.
Definition MOVE_L_C : Z := -1.
Definition MOVE_R_C : Z := 1.
Definition MOVE_N_C : Z := 0.
Definition NUM_SYMBOLS_C : Z := 2.

Definition SYMBOLS_PY : list string := ["0"; "1"]%string.

(** [SYMBOLS_PY[i]] with bounds checking and wrap-around indexing disabled. *)
Definition symbol_at (i : Z) : result string :=
  if decide (0 <= i < 2) then
    match SYMBOLS_PY !! Z.to_nat i with
    | Some s => Ok s
    | None => Raise UndefinedBehaviour
    end
  else Raise UndefinedBehaviour.

(** A transition value [(next_state, write_symbol, move_code)] and the
    dictionary from [(state, symbol)] to transition values. *)
Abbreviation transition := (Z * string * Z)%type.
Abbreviation tm_table := (gmap (Z * string) (Z * string * Z)).

Definition _encode_transition_cy
    (next_state_c : Z) (write_symbol_b : string) (move_code_c : Z) (n_states : Z)
  : Z :=
  if decide (next_state_c = HALT_STATE_C) then
    if decide (write_symbol_b = "0"%string) then 0 else 1
  else
    let write_idx := if decide (write_symbol_b = "0"%string) then 0 else 1 in
    let move_idx := if decide (move_code_c = MOVE_L_C) then 0 else 1 in
    wrap_int (2 + (next_state_c - 1) * (NUM_SYMBOLS_C * 2) + (write_idx * 2 + move_idx)).

(** Body of the inner loop of [tm_to_int]: one table cell. *)
Definition tm_to_int_cell (tm_table : tm_table) (n_states base : Z)
    (state sym_idx : Z) (number : Z) : result Z :=
  sym ← symbol_at sym_idx;
  match tm_table !! (state, sym) with
  | None => Raise KeyError
  | Some transition_val_py =>
      next_state_c ← as_int transition_val_py.1.1;
      let write_symbol_b :=
        if decide (transition_val_py.1.2 = "0"%string) then "0"%string else "1"%string in
      move_code_c ← as_int transition_val_py.2;
      let code := _encode_transition_cy next_state_c write_symbol_b move_code_c n_states in
      Ok (wrap_long (number * base + code))
  end.

(** [tm_to_int] on C arguments. *)
Definition tm_to_int_c (tm_table : tm_table) (n_states : Z) : result Z :=
  let base := wrap_int (4 * n_states + 2) in
  for_each (seqZ 1 n_states)
    (fun state number =>
       for_each (seqZ 0 NUM_SYMBOLS_C)
         (fun sym_idx number => tm_to_int_cell tm_table n_states base state sym_idx number)
         number)
    0.

(** [cpdef long tm_to_int(dict tm_table, int n_states)] as called from
    Python: the argument is converted to a C [int] first. *)
Definition tm_to_int (tm_table : tm_table) (n_states : Z) : result Z :=
  n ← as_int n_states; tm_to_int_c tm_table n.

(** The static buffer [cdef int[20] digits]: twenty cells, none written yet. *)
Definition DIGITS_LEN : Z := 20.
Definition digits_fresh : list (option Z) := replicate 20 None.

Definition digits_set (i v : Z) (digits : list (option Z)) : result (list (option Z)) :=
  if decide (0 <= i < DIGITS_LEN) then Ok (<[Z.to_nat i := Some v]> digits)
  else Raise UndefinedBehaviour.

Definition digits_get (i : Z) (digits : list (option Z)) : result Z :=
  if decide (0 <= i < DIGITS_LEN) then
    match digits !! Z.to_nat i with
    | Some (Some v) => Ok v
    | _ => Raise UndefinedBehaviour
    end
  else Raise UndefinedBehaviour.

(** First loop of [int_to_tm_table]: least significant digit first.  [%] and
    [//] on C integers keep Python's floor semantics ([cdivision] is off);
    their zero-divisor and overflow checks cannot fire (see [base_nonzero]). *)
Definition extract_digit (base : Z) (i : Z) (st : list (option Z) * Z)
  : result (list (option Z) * Z) :=
  let '(digits, remainder) := st in
  digits' ← digits_set i (wrap_int (remainder mod base)) digits;
  Ok (digits', remainder / base).

(** The transition value a digit stands for. *)
Definition decode_code (code : Z) : result transition :=
  if decide (code < NUM_SYMBOLS_C) then
    write_symbol_py ← symbol_at code;
    Ok (HALT_STATE_C, write_symbol_py, MOVE_N_C)
  else
    let offset_code := code - NUM_SYMBOLS_C in
    let combos_per_state_action := NUM_SYMBOLS_C * 2 in
    let state_offset_idx := offset_code / combos_per_state_action in
    let inner_combo_idx := offset_code mod combos_per_state_action in
    let next_state_c := wrap_int (state_offset_idx + 1) in
    let write_idx_c := inner_combo_idx / 2 in
    let move_idx_c := inner_combo_idx mod 2 in
    write_symbol_py ← symbol_at write_idx_c;
    let move_code_c := if decide (move_idx_c = 0) then MOVE_L_C else MOVE_R_C in
    Ok (next_state_c, write_symbol_py, move_code_c).

(** Body of the inner loop of the table construction: the state is the
    table built so far and [current_digit_idx]. *)
Definition decode_cell (digits : list (option Z)) (state sym_idx_c : Z)
    (st : tm_table * Z) : result (tm_table * Z) :=
  let '(tm_table, current_digit_idx) := st in
  code ← digits_get current_digit_idx digits;
  let current_digit_idx' := wrap_int (current_digit_idx - 1) in
  sym ← symbol_at sym_idx_c;
  let key_tuple := (state, sym) in
  val ← decode_code code;
  Ok (<[key_tuple := val]> tm_table, current_digit_idx').

(** [int_to_tm_table] on C arguments. *)
Definition int_to_tm_table_c (number n_states : Z) : result tm_table :=
  let base := wrap_int (4 * n_states + 2) in
  let total_entries := wrap_int (2 * n_states) in
  '(digits, _) ← for_each (seqZ 0 total_entries) (extract_digit base) (digits_fresh, number);
  let current_digit_idx := wrap_int (total_entries - 1) in
  '(tm_table, _) ←
    for_each (seqZ 1 n_states)
      (fun state st =>
         for_each (seqZ 0 NUM_SYMBOLS_C) (fun sym_idx_c st => decode_cell digits state sym_idx_c st) st)
      (∅, current_digit_idx);
  Ok tm_table.

(** [cpdef dict int_to_tm_table(long number, int n_states)] as called from
    Python. *)
Definition int_to_tm_table (number n_states : Z) : result tm_table :=
  k ← as_long number; n ← as_int n_states; int_to_tm_table_c k n.

(** ** turing_machine_ext.pyx *)

(** Modelled from the spec: [tm_constants.HALT_STATE], imported by the
    simulator kernel; state [0] is the distinguished halt state (the
    encoder mirrors it as [HALT_STATE_C]). *)
Definition HALT_STATE : Z := 0.

(** A recorded configuration [(current_state, head_position, tape_snapshot)].
    [frozenset(tape.items())] is the set of the (cell, symbol) pairs stored
    in the dictionary; two such sets are equal exactly when the dictionaries
    are, so the snapshot is the dictionary itself. *)
Abbreviation config := (Z * Z * gmap Z string)%type.

(** The attributes of the Python [TuringMachine] object the kernels read
    and write.  The three underscore attributes are created on the fly by
    the filters: [None] is an attribute that does not exist yet (for
    [_cycle_history] also one that holds Python's [None]). *)
Record TuringMachine : Type := mkTM {
  transition_table : tm_table;
  num_states : Z;
  blank_symbol : string;
  tape : gmap Z string;
  head_position : Z;
  current_state : Z;
  min_visited : Z;
  max_visited : Z;
  steps_taken : Z;
  _escapee_seen_positions : option (gset Z);
  _escapee_blank_run_count : option Z;
  _cycle_history : option (list config)
}.

Definition set_tape (tp : gmap Z string) (m : TuringMachine) : TuringMachine :=
  mkTM (transition_table m) (num_states m) (blank_symbol m) tp (head_position m)
       (current_state m) (min_visited m) (max_visited m) (steps_taken m)
       (_escapee_seen_positions m) (_escapee_blank_run_count m) (_cycle_history m).
Definition set_head_position (p : Z) (m : TuringMachine) : TuringMachine :=
  mkTM (transition_table m) (num_states m) (blank_symbol m) (tape m) p
       (current_state m) (min_visited m) (max_visited m) (steps_taken m)
       (_escapee_seen_positions m) (_escapee_blank_run_count m) (_cycle_history m).
Definition set_current_state (q : Z) (m : TuringMachine) : TuringMachine :=
  mkTM (transition_table m) (num_states m) (blank_symbol m) (tape m) (head_position m)
       q (min_visited m) (max_visited m) (steps_taken m)
       (_escapee_seen_positions m) (_escapee_blank_run_count m) (_cycle_history m).
Definition set_min_visited (v : Z) (m : TuringMachine) : TuringMachine :=
  mkTM (transition_table m) (num_states m) (blank_symbol m) (tape m) (head_position m)
       (current_state m) v (max_visited m) (steps_taken m)
       (_escapee_seen_positions m) (_escapee_blank_run_count m) (_cycle_history m).
Definition set_max_visited (v : Z) (m : TuringMachine) : TuringMachine :=
  mkTM (transition_table m) (num_states m) (blank_symbol m) (tape m) (head_position m)
       (current_state m) (min_visited m) v (steps_taken m)
       (_escapee_seen_positions m) (_escapee_blank_run_count m) (_cycle_history m).
Definition set_steps_taken (v : Z) (m : TuringMachine) : TuringMachine :=
  mkTM (transition_table m) (num_states m) (blank_symbol m) (tape m) (head_position m)
       (current_state m) (min_visited m) (max_visited m) v
       (_escapee_seen_positions m) (_escapee_blank_run_count m) (_cycle_history m).
Definition set_escapee_seen_positions (v : gset Z) (m : TuringMachine) : TuringMachine :=
  mkTM (transition_table m) (num_states m) (blank_symbol m) (tape m) (head_position m)
       (current_state m) (min_visited m) (max_visited m) (steps_taken m)
       (Some v) (_escapee_blank_run_count m) (_cycle_history m).
Definition set_escapee_blank_run_count (v : Z) (m : TuringMachine) : TuringMachine :=
  mkTM (transition_table m) (num_states m) (blank_symbol m) (tape m) (head_position m)
       (current_state m) (min_visited m) (max_visited m) (steps_taken m)
       (_escapee_seen_positions m) (Some v) (_cycle_history m).
Definition set_cycle_history (v : list config) (m : TuringMachine) : TuringMachine :=
  mkTM (transition_table m) (num_states m) (blank_symbol m) (tape m) (head_position m)
       (current_state m) (min_visited m) (max_visited m) (steps_taken m)
       (_escapee_seen_positions m) (_escapee_blank_run_count m) (Some v).

(** Modelled from the spec: the tape of the [TuringMachine] class, a
    [defaultdict] (so the kernel's comments) whose cells absent from the
    mapping read as blank.  [tape[pos]] on a [defaultdict] stores the default
    under the missing key before returning it. *)
Definition tape_getitem (blank : string) (tp : gmap Z string) (pos : Z)
  : string * gmap Z string :=
  match tp !! pos with
  | Some s => (s, tp)
  | None => (blank, <[pos := blank]> tp)
  end.

(** What a cell reads as, stored or not. *)
Definition tape_content (m : TuringMachine) (pos : Z) : string :=
  default (blank_symbol m) (tape m !! pos).

(** [cython_step]: the result is the returned verdict ([1] continue, [0]
    halt) and the object after the call. *)
Definition cython_step (tm_obj : TuringMachine) : result (Z * TuringMachine) :=
  current_state ← as_int (current_state tm_obj);
  let transition_table := transition_table tm_obj in
  head_position ← as_int (head_position tm_obj);
  if decide (current_state = HALT_STATE) then Ok (0, tm_obj)
  else
    let '(current_symbol, tape1) :=
      tape_getitem (blank_symbol tm_obj) (tape tm_obj) head_position in
    let tm_obj := set_tape tape1 tm_obj in
    let key := (current_state, current_symbol) in
    match transition_table !! key with
    | None => Ok (0, set_current_state HALT_STATE tm_obj)
    | Some transition_val =>
        let next_state_c := transition_val.1.1 in
        let write_symbol_py := transition_val.1.2 in
        let move_code_c := transition_val.2 in
        let tm_obj := set_tape (<[head_position := write_symbol_py]> tape1) tm_obj in
        let tm_obj := set_current_state next_state_c tm_obj in
        let new_head_position := head_position + move_code_c in
        let tm_obj := set_head_position new_head_position tm_obj in
        let tm_obj := set_min_visited (Z.min (min_visited tm_obj) new_head_position) tm_obj in
        let tm_obj := set_max_visited (Z.max (max_visited tm_obj) new_head_position) tm_obj in
        let tm_obj := set_steps_taken (steps_taken tm_obj + 1) tm_obj in
        if decide (next_state_c = HALT_STATE) then Ok (0, tm_obj) else Ok (1, tm_obj)
    end.

(** Reading an attribute that may not exist. *)
Definition getattr {A} (o : option A) : result A :=
  match o with Some a => Ok a | None => Raise AttributeError end.

(** [check_escapee]: the verdict and the object after the call.  The first
    call finds no [_escapee_seen_positions] and creates both attributes;
    later calls read the head position into a C [int], read the tape cell
    (which stores the blank if the cell is absent) and update the run
    counter and the set. *)
Definition check_escapee (tm_obj : TuringMachine) : result (bool * TuringMachine) :=
  match _escapee_seen_positions tm_obj with
  | None =>
      let tm_obj := set_escapee_seen_positions {[ head_position tm_obj ]} tm_obj in
      let tm_obj := set_escapee_blank_run_count 0 tm_obj in
      Ok (false, tm_obj)
  | Some seen_positions =>
      current_pos ← as_int (head_position tm_obj);
      let '(sym, tape1) := tape_getitem (blank_symbol tm_obj) (tape tm_obj) current_pos in
      let tm_obj := set_tape tape1 tm_obj in
      let is_blank := bool_decide (sym = blank_symbol tm_obj) in
      let is_new := bool_decide (current_pos ∉ seen_positions) in
      tm_obj ←
        (if is_blank && is_new then
           run ← getattr (_escapee_blank_run_count tm_obj);
           let tm_obj := set_escapee_blank_run_count (run + 1) tm_obj in
           Ok (set_escapee_seen_positions (seen_positions ∪ {[ current_pos ]}) tm_obj)
         else Ok (set_escapee_blank_run_count 0 tm_obj));
      run ← getattr (_escapee_blank_run_count tm_obj);
      if decide (run > num_states tm_obj) then Ok (true, tm_obj) else Ok (false, tm_obj)
  end.

(** [deque(maxlen=k).append(x)]: the oldest entries fall off the left. *)
Definition deque_append {A} (maxlen : nat) (d : list A) (x : A) : list A :=
  let d' := d ++ [x] in drop (length d' - maxlen)%nat d'.

(** [check_cycle_two]: the verdict and the object after the call; nothing
    in it can raise. *)
Definition check_cycle_two (tm_obj : TuringMachine) : bool * TuringMachine :=
  let history := default [] (_cycle_history tm_obj) in
  let tape_snapshot := tape tm_obj in
  let config := (current_state tm_obj, head_position tm_obj, tape_snapshot) in
  let history := deque_append 3 history config in
  let tm_obj := set_cycle_history history tm_obj in
  if bool_decide (length history = 3%nat) && bool_decide (history !! 0%nat = history !! 2%nat)
  then (true, tm_obj) else (false, tm_obj).

(** Modelled from the spec: the initial configuration of a run, set up by
    the [TuringMachine] constructor: the tape is everywhere blank, the head
    is at 0, the state is 1, [min_visited = max_visited = 0] and no step has
    been taken; the filters' attributes do not exist yet. *)
Definition initial_machine (table : tm_table) (n : Z) (blank : string) : TuringMachine :=
  mkTM table n blank ∅ 0 1 0 0 0 None None None.

(** [k] successive calls of [cython_step]; a call that raises leaves the
    object as it was. *)
Definition step_obj (m : TuringMachine) : TuringMachine :=
  match cython_step m with Ok (_, m') => m' | Raise _ => m end.

Fixpoint steps (k : nat) (m : TuringMachine) : TuringMachine :=
  match k with O => m | S k' => steps k' (step_obj m) end.

(** ** Example machines *)

(** A two-state table used to exercise the kernels. *)
Definition demo_table : tm_table :=
  {[ (1, "0"%string) := (2, "1"%string, 1); (1, "1"%string) := (0, "1"%string, 0);
     (2, "0"%string) := (1, "0"%string, -1); (2, "1"%string) := (2, "1"%string, 1) ]}.

(** A two-state machine that walks between cells 0 and 1 for ever. *)
Definition pingpong_table : tm_table :=
  {[ (1, "0"%string) := (2, "0"%string, 1); (1, "1"%string) := (2, "0"%string, 1);
     (2, "0"%string) := (1, "0"%string, -1); (2, "1"%string) := (1, "0"%string, -1) ]}.

(** ** The filters as the specification words them *)

(** The escapee rule of the specification: after a step leaving the head at
    [p], if the cell is blank and [p] is not in [seen], count one more and
    add [p]; otherwise reset the counter. *)
Definition spec_escapee_update (is_blank : bool) (p : Z) (seen : gset Z) (run : Z)
  : gset Z * Z :=
  if is_blank && bool_decide (p ∉ seen) then (seen ∪ {[ p ]}, run + 1) else (seen, 0).

(** The tape snapshot of the specification: the content of the cells
    [min_visited..max_visited]. *)
Definition spec_tape_snapshot (m : TuringMachine) : list string :=
  tape_content m <$> seqZ (min_visited m) (max_visited m - min_visited m + 1).

(** The period-2 filter of the specification, over its own history. *)
Definition spec_check_cycle_two (history : list (Z * Z * list string)) (m : TuringMachine)
  : bool * list (Z * Z * list string) :=
  let history :=
    deque_append 3 history (current_state m, head_position m, spec_tape_snapshot m) in
  (bool_decide (length history = 3%nat) && bool_decide (history !! 0%nat = history !! 2%nat),
   history).

(** Modelled from the spec: the run loop of the [TuringMachine] class with
    only the period-2 filter enabled (one step, then one query), for [k]
    iterations; the result is the list of the filter's verdicts. *)
Fixpoint run_cycle_two (k : nat) (m : TuringMachine) : list bool :=
  match k with
  | O => []
  | S k' =>
      let '(b, m') := check_cycle_two (step_obj m) in
      b :: run_cycle_two k' m'
  end.

(** The same loop with the filter of the specification. *)
Fixpoint spec_run_cycle_two (k : nat) (history : list (Z * Z * list string))
    (m : TuringMachine) : list bool :=
  match k with
  | O => []
  | S k' =>
      let m' := step_obj m in
      let '(b, history') := spec_check_cycle_two history m' in
      b :: spec_run_cycle_two k' history' m'
  end.

(** ** The codec as the specification words it *)

(** The symbol with a given index. *)
Definition spec_symbol (i : Z) : string :=
  if decide (i = 0) then "0"%string else "1"%string.

(** The transition a digit [d] stands for: [0] and [1] halt, writing that
    symbol, without moving; [d >= 2] gives, with [e = d - 2], the next state
    [1 + e ÷ 4], the written symbol of index [(e ÷ 2) mod 2], and a move to
    the left for an even [e], to the right for an odd one. *)
Definition spec_decode_digit (d : Z) : transition :=
  if decide (d = 0) then (0, "0"%string, 0)
  else if decide (d = 1) then (0, "1"%string, 0)
  else
    let e := d - 2 in
    (1 + e / 4, spec_symbol ((e / 2) mod 2), if decide (e mod 2 = 0) then -1 else 1).

(** The digit at position [pos] (0 is the most significant) of [k] written
    with [len] digits in base [base]. *)
Definition big_endian_digit (base len k pos : Z) : Z :=
  (k / base ^ (len - 1 - pos)) mod base.

(** A valid transition for [n] states: it writes a symbol, and either
    enters the halt state without moving or enters an active state moving
    left or right. *)
Definition valid_transition (n : Z) (tr : transition) : Prop :=
  (tr.1.2 = "0"%string \/ tr.1.2 = "1"%string)
  /\ ((tr.1.1 = 0 /\ tr.2 = 0) \/ (1 <= tr.1.1 <= n /\ (tr.2 = -1 \/ tr.2 = 1))).

(** The [2n] keys [(state, symbol)] of a table for [n] states. *)
Definition table_keys (n : Z) : gset (Z * string) :=
  list_to_set (s ← seqZ 1 n; [(s, "0"%string); (s, "1"%string)]).

(** A valid transition table for [n] states: a total mapping on the keys
    of [table_keys n], and on nothing else, to valid transitions. *)
Definition valid_table (t : tm_table) (n : Z) : Prop :=
  dom t = table_keys n /\ map_Forall (fun _ tr => valid_transition n tr) t.

#[global] Instance valid_transition_dec n tr : Decision (valid_transition n tr).
Proof. unfold valid_transition. apply _. Defined.

#[global] Instance valid_table_dec t n : Decision (valid_table t n).
Proof. unfold valid_table. apply _. Defined.

(** ** Auxiliary definitions of the codec proofs *)

(** What the decoded table holds under a key, restricted to the states
    [1..j] the construction loop has already passed. *)
Definition decoded_lookup (n k j : Z) (key : Z * string) : option transition :=
  if decide (1 <= key.1 <= j) then
    if decide (key.2 = "0"%string) then
      Some (spec_decode_digit (big_endian_digit (4 * n + 2) (2 * n) k (2 * (key.1 - 1))))
    else if decide (key.2 = "1"%string) then
      Some (spec_decode_digit (big_endian_digit (4 * n + 2) (2 * n) k (2 * (key.1 - 1) + 1)))
    else None
  else None.

(** The digit [tm_to_int] computes for the cell [(s, sym)] of a table. *)
Definition cell_code (t : tm_table) (n s : Z) (sym : string) : Z :=
  match t !! (s, sym) with
  | Some tr =>
      _encode_transition_cy tr.1.1
        (if decide (tr.1.2 = "0"%string) then "0"%string else "1"%string) tr.2 n
  | None => 0
  end.

(** The value of [number] after the cells of the states [1..j]. *)
Fixpoint enc_prefix (code : Z -> string -> Z) (b : Z) (j : nat) : Z :=
  match j with
  | O => 0
  | S j' =>
      (enc_prefix code b j' * b + code (Z.of_nat j) "0"%string) * b
      + code (Z.of_nat j) "1"%string
  end.

(** The table for [n] states all of whose cells hold the transition [tr]. *)
Definition uniform_table (n : Z) (tr : transition) : tm_table :=
  list_to_map (s ← seqZ 1 n; [((s, "0"%string), tr); ((s, "1"%string), tr)]).

(** ** The indices into the digit buffer *)

(** The indices [i] of [digits[i] = ...] in the digit-extraction loop, in
    program order. *)
Definition digit_loop_indices (n_states : Z) : list Z :=
  seqZ 0 (wrap_int (2 * n_states)).

(** [len] successive values of [current_digit_idx]. *)
Fixpoint countdown (len : nat) (idx : Z) : list Z :=
  match len with
  | O => []
  | S len' => idx :: countdown len' (wrap_int (idx - 1))
  end.

(** The indices of [digits[current_digit_idx]] in the table-construction
    loop, in program order: two cells for each state. *)
Definition table_loop_indices (n_states : Z) : list Z :=
  countdown (2 * Z.to_nat n_states) (wrap_int (wrap_int (2 * n_states) - 1)).

(** ** The run loop and non-halting *)

(** Where the run loop stands: at the top of an iteration, or after the
    step of an iteration, with a flag per filter telling whether it has
    been queried since that step. *)
Inductive stage : Type :=
  | LoopTop
  | AfterStep (escapee_done cycle_done : bool).

(** Modelled from the spec: the run loop of the [TuringMachine] class on
    an initially blank tape.  An iteration leaves the loop if the state is
    the halt state; otherwise it calls [cython_step] and then queries each
    enabled filter once (in either order); a filter answering [True] ends
    the run, so the loop goes on only after every enabled filter has
    answered [False].  The step budget is left out: any number of
    iterations may be taken. *)
Inductive reaches (table : tm_table) (n : Z) (blank : string)
    (use_escapee use_cycle_two : bool) : stage -> TuringMachine -> Prop :=
  | reaches_init :
      reaches table n blank use_escapee use_cycle_two
        LoopTop (initial_machine table n blank)
  | reaches_step (m : TuringMachine) (v : Z) (m' : TuringMachine) :
      reaches table n blank use_escapee use_cycle_two LoopTop m ->
      current_state m <> HALT_STATE ->
      cython_step m = Ok (v, m') ->
      reaches table n blank use_escapee use_cycle_two (AfterStep false false) m'
  | reaches_escapee (m m' : TuringMachine) (c : bool) :
      use_escapee = true ->
      reaches table n blank use_escapee use_cycle_two (AfterStep false c) m ->
      check_escapee m = Ok (false, m') ->
      reaches table n blank use_escapee use_cycle_two (AfterStep true c) m'
  | reaches_cycle_two (m m' : TuringMachine) (e : bool) :
      use_cycle_two = true ->
      reaches table n blank use_escapee use_cycle_two (AfterStep e false) m ->
      check_cycle_two m = (false, m') ->
      reaches table n blank use_escapee use_cycle_two (AfterStep e true) m'
  | reaches_next (m : TuringMachine) (e c : bool) :
      reaches table n blank use_escapee use_cycle_two (AfterStep e c) m ->
      e = use_escapee -> c = use_cycle_two ->
      reaches table n blank use_escapee use_cycle_two LoopTop m.

(** The machine never halts: no number of further calls of [cython_step]
    brings it into the halt state. *)
Definition never_halts (m : TuringMachine) : Prop :=
  forall k : nat, current_state (steps k m) <> HALT_STATE.

(** ** Auxiliary definitions of the soundness proof *)

(** Two objects in the same machine configuration: same table and blank,
    same state and head position, and every cell reads the same. *)
Definition same_config (m1 m2 : TuringMachine) : Prop :=
  transition_table m1 = transition_table m2
  /\ blank_symbol m1 = blank_symbol m2
  /\ current_state m1 = current_state m2
  /\ head_position m1 = head_position m2
  /\ forall p, tape_content m1 p = tape_content m2 p.

(** The effect of one call of [cython_step] on the attributes, leaving
    [_cycle_history] aside: nothing happens (the call raises or the machine
    has halted), or an undefined transition halts the machine, or a defined
    transition is taken. *)
Definition step_rel (m m' : TuringMachine) : Prop :=
  transition_table m' = transition_table m
  /\ blank_symbol m' = blank_symbol m
  /\ num_states m' = num_states m
  /\ _escapee_seen_positions m' = _escapee_seen_positions m
  /\ _escapee_blank_run_count m' = _escapee_blank_run_count m
  /\ (((~ in_int (current_state m) \/ ~ in_int (head_position m)
        \/ current_state m = HALT_STATE)
       /\ current_state m' = current_state m
       /\ head_position m' = head_position m
       /\ min_visited m' = min_visited m
       /\ max_visited m' = max_visited m
       /\ forall p, tape_content m' p = tape_content m p)
      \/ (in_int (current_state m) /\ in_int (head_position m)
          /\ current_state m <> HALT_STATE
          /\ transition_table m !! (current_state m, tape_content m (head_position m)) = None
          /\ current_state m' = HALT_STATE
          /\ head_position m' = head_position m
          /\ min_visited m' = min_visited m
          /\ max_visited m' = max_visited m
          /\ forall p, tape_content m' p = tape_content m p)
      \/ (in_int (current_state m) /\ in_int (head_position m)
          /\ current_state m <> HALT_STATE
          /\ exists ns w mv,
               transition_table m !! (current_state m, tape_content m (head_position m))
               = Some (ns, w, mv)
               /\ current_state m' = ns
               /\ head_position m' = head_position m + mv
               /\ min_visited m' = Z.min (min_visited m) (head_position m + mv)
               /\ max_visited m' = Z.max (max_visited m) (head_position m + mv)
               /\ tape_content m' (head_position m) = w
               /\ forall p, p <> head_position m -> tape_content m' p = tape_content m p)).

(** The object a recorded configuration stands for. *)
Definition machine_of_config (table : tm_table) (blank : string) (c : config)
  : TuringMachine :=
  mkTM table 0 blank c.2 c.1.2 c.1.1 0 0 0 None None None.

Definition config_of (m : TuringMachine) : config :=
  (current_state m, head_position m, tape m).

(** [c'] is the configuration one step after the active configuration [c]. *)
Definition linked (table : tm_table) (blank : string) (c c' : config) : Prop :=
  c.1.1 <> HALT_STATE
  /\ same_config (step_obj (machine_of_config table blank c))
                 (machine_of_config table blank c').

Fixpoint chained (table : tm_table) (blank : string) (l : list config) : Prop :=
  match l with
  | c :: l' =>
      match l' with
      | c' :: _ => linked table blank c c' /\ chained table blank l'
      | [] => True
      end
  | [] => True
  end.

(** What the run loop keeps true of the history of the period-2 filter. *)
Definition cycle_inv (table : tm_table) (blank : string) (st : stage)
    (m : TuringMachine) : Prop :=
  transition_table m = table /\ blank_symbol m = blank
  /\ match st with
     | AfterStep _ false =>
         chained table blank (default [] (_cycle_history m) ++ [config_of m])
     | _ =>
         chained table blank (default [] (_cycle_history m))
         /\ match last (default [] (_cycle_history m)) with
            | Some c => same_config (machine_of_config table blank c) m
            | None => True
            end
     end.

(** The machine runs away over blank cells: its state lies in a set of
    active states closed under the transitions on blank, all of which move
    in the direction [d], and every cell from the head on in that direction
    is blank. *)
Definition escaping (m : TuringMachine) : Prop :=
  exists (d : Z) (ss : list Z),
    (d = -1 \/ d = 1)
    /\ current_state m ∈ ss
    /\ (forall a, a ∈ ss ->
          a <> HALT_STATE
          /\ exists b w, transition_table m !! (a, blank_symbol m) = Some (b, w, d)
                         /\ b ∈ ss)
    /\ forall i, 0 <= i -> tape_content m (head_position m + i * d) = blank_symbol m.

(** States visited on successive blank cells, the latest first: each was
    entered from the next one by a transition on blank moving by [d]. *)
Fixpoint blank_chain (table : tm_table) (blank : string) (d : Z) (ss : list Z) : Prop :=
  match ss with
  | a :: l =>
      match l with
      | b :: _ => (exists w, table !! (b, blank) = Some (a, w, d))
                  /\ blank_chain table blank d l
      | [] => True
      end
  | [] => True
  end.

(** A run of [r >= 2] landings on fresh blank cells that keeps going in
    the direction [d]. *)
Definition run_ahead (m : TuringMachine) (seen : gset Z) (r : Z) : Prop :=
  exists (d : Z) (ss : list Z),
    (d = -1 \/ d = 1)
    /\ Z.of_nat (length ss) = r
    /\ head ss = Some (current_state m)
    /\ blank_chain (transition_table m) (blank_symbol m) d ss
    /\ (forall a, a ∈ ss -> 1 <= a <= num_states m)
    /\ (forall i, 0 <= i -> tape_content m (head_position m + i * d) = blank_symbol m)
    /\ head_position m - d ∈ seen
    /\ head_position m ∈ seen.

(** A run of two landings that ended on cell 0 between two recorded
    cells: the next landing cannot be fresh. *)
Definition run_boxed (m : TuringMachine) (seen : gset Z) (r : Z) : Prop :=
  r = 2
  /\ head_position m - 1 ∈ seen
  /\ head_position m + 1 ∈ seen
  /\ head_position m ∈ seen
  /\ current_state m <> HALT_STATE.

Definition run_inv (m : TuringMachine) (seen : gset Z) (r : Z) : Prop :=
  r = 0
  \/ (r = 1 /\ head_position m ∈ seen
      /\ tape_content m (head_position m) = blank_symbol m)
  \/ (2 <= r /\ (run_ahead m seen r \/ run_boxed m seen r)).

(** What the run loop keeps true of the escapee filter's attributes, at
    the top of an iteration and after the filter's query. *)
Definition escapee_inv (table : tm_table) (n : Z) (blank : string)
    (m : TuringMachine) : Prop :=
  transition_table m = table /\ blank_symbol m = blank /\ num_states m = n
  /\ min_visited m <= 0 <= max_visited m
  /\ min_visited m <= head_position m <= max_visited m
  /\ (forall p, p < min_visited m \/ max_visited m < p ->
        tape_content m p = blank_symbol m)
  /\ match _escapee_seen_positions m, _escapee_blank_run_count m with
     | None, None =>
         min_visited m = 0 /\ max_visited m = 0 /\ head_position m = 0
         /\ forall p, tape_content m p = blank_symbol m
     | Some seen, Some r =>
         (forall p, min_visited m <= p <= max_visited m -> p <> 0 -> p ∈ seen)
         /\ run_inv m seen r
         /\ (n = 1 -> current_state m <> HALT_STATE -> escaping m)
     | _, _ => False
     end.

(** The same, at every stage of the loop: before the filter's query the
    object is one step after an object satisfying [escapee_inv]. *)
Definition escapee_stage_inv (table : tm_table) (n : Z) (blank : string)
    (st : stage) (m : TuringMachine) : Prop :=
  match st with
  | AfterStep false _ =>
      exists m0, escapee_inv table n blank m0
                 /\ current_state m0 <> HALT_STATE
                 /\ in_int (current_state m0) /\ in_int (head_position m0)
                 /\ step_rel m0 m
  | _ => escapee_inv table n blank m
  end.

(** A one-state machine that writes 1 and moves right for ever. *)
Definition runaway_table : tm_table :=
  {[ (1, "0"%string) := (1, "1"%string, 1); (1, "1"%string) := (0, "1"%string, 0) ]}.

(** Modelled from the spec: one iteration of the run loop with only the
    escapee filter enabled, or only the period-2 filter: the object after
    the step and the filter's query. *)
Definition escapee_iteration (m : TuringMachine) : TuringMachine :=
  match check_escapee (step_obj m) with
  | Ok (_, m') => m'
  | Raise _ => step_obj m
  end.

Definition cycle_two_iteration (m : TuringMachine) : TuringMachine :=
  (check_cycle_two (step_obj m)).2.

(** ** Auxiliary definition of the further codec properties *)

(** The transition [_encode_transition_cy] takes a transition value for:
    a write symbol other than ['0'] counts as ['1'], the move of a
    transition into the halt state is ignored, and a move other than left
    counts as right. *)
Definition normalise_transition (tr : transition) : transition :=
  let w := if decide (tr.1.2 = "0"%string) then "0"%string else "1"%string in
  if decide (tr.1.1 = HALT_STATE_C) then (HALT_STATE_C, w, MOVE_N_C)
  else (tr.1.1, w, if decide (tr.2 = MOVE_L_C) then MOVE_L_C else MOVE_R_C).

(** * Properties *)

(** Decide a closed decidable proposition by evaluation. *)
Ltac vm_compute_decide :=
  match goal with
  | |- ?P => apply (bool_decide_unpack P); vm_compute; exact I
  end.

(** ** C integers and the exception monad *)

Lemma as_int_ok z : in_int z -> as_int z = Ok z.
Proof.
  unfold in_int, as_int, fits_int. intros [H1 H2].
  apply Z.leb_le in H1, H2. by rewrite H1, H2.
Qed.

Lemma as_long_ok z : in_long z -> as_long z = Ok z.
Proof.
  unfold in_long, as_long, fits_long. intros [H1 H2].
  apply Z.leb_le in H1, H2. by rewrite H1, H2.
Qed.

Lemma as_int_inv z r : as_int z = Ok r -> r = z /\ in_int z.
Proof.
  unfold as_int, fits_int, in_int. destruct (int_min <=? z) eqn:E1; [|done].
  destruct (z <=? int_max) eqn:E2; [|done]. simpl. intros [= <-].
  apply Z.leb_le in E1, E2. done.
Qed.

Lemma as_long_raise z : ~ in_long z -> as_long z = Raise OverflowError.
Proof.
  unfold in_long, as_long, fits_long. intros H.
  destruct (long_min <=? z) eqn:E1; [|done].
  destruct (z <=? long_max) eqn:E2; [|done].
  apply Z.leb_le in E1, E2. lia.
Qed.

Lemma wrap_int_id z : in_int z -> wrap_int z = z.
Proof.
  unfold in_int, int_min, int_max, wrap_int. intros H.
  rewrite Z.mod_small; lia.
Qed.

Lemma wrap_long_id z : in_long z -> wrap_long z = z.
Proof.
  unfold in_long, long_min, long_max, wrap_long. intros H.
  rewrite Z.mod_small; lia.
Qed.

(** The base [4 * n_states + 2] of the codec is never 0 (nor -1) as a C
    [int], so the checks Cython adds to [%] and [//] never fire and the
    model leaves them out. *)
Lemma base_nonzero (n_states : Z) :
  wrap_int (4 * n_states + 2) <> 0 /\ wrap_int (4 * n_states + 2) <> -1.
Proof.
  unfold wrap_int.
  change (2 ^ 31) with 2147483648. change (2 ^ 32) with 4294967296.
  Z.div_mod_to_equations. lia.
Qed.

Lemma for_each_app {A S} (l1 l2 : list A) (body : A -> S -> result S) (s : S) :
  for_each (l1 ++ l2) body s = (s' ← for_each l1 body s; for_each l2 body s').
Proof.
  revert s. induction l1 as [|x l1 IH]; intros s; simpl; [done|].
  destruct (body x s) as [s'|e]; simpl; [apply IH | done].
Qed.

(** ** The simulator step *)

Lemma tape_getitem_content (m : TuringMachine) (pos : Z) :
  (tape_getitem (blank_symbol m) (tape m) pos).1 = tape_content m pos.
Proof. unfold tape_getitem, tape_content. by destruct (tape m !! pos). Qed.

Lemma tape_getitem_lookup (blank : string) (tp : gmap Z string) (pos p : Z) :
  default blank ((tape_getitem blank tp pos).2 !! p) = default blank (tp !! p).
Proof.
  unfold tape_getitem. destruct (tp !! pos) eqn:E; simpl; [done|].
  destruct (decide (pos = p)) as [->|Hne].
  - by rewrite lookup_insert_eq, E.
  - by rewrite lookup_insert_ne.
Qed.

(** The three ways a call of [cython_step] on a convertible object ends. *)
Lemma cython_step_cases (m : TuringMachine) :
  in_int (current_state m) -> in_int (head_position m) ->
  let sym := tape_content m (head_position m) in
  let tape1 := (tape_getitem (blank_symbol m) (tape m) (head_position m)).2 in
  (current_state m = HALT_STATE /\ cython_step m = Ok (0, m))
  \/ (current_state m <> HALT_STATE
      /\ transition_table m !! (current_state m, sym) = None
      /\ cython_step m = Ok (0, set_current_state HALT_STATE (set_tape tape1 m)))
  \/ (exists next_state write move,
        current_state m <> HALT_STATE
        /\ transition_table m !! (current_state m, sym) = Some (next_state, write, move)
        /\ cython_step m =
             Ok (if decide (next_state = HALT_STATE) then 0 else 1,
                 mkTM (transition_table m) (num_states m) (blank_symbol m)
                      (<[head_position m := write]> tape1)
                      (head_position m + move) next_state
                      (Z.min (min_visited m) (head_position m + move))
                      (Z.max (max_visited m) (head_position m + move))
                      (steps_taken m + 1)
                      (_escapee_seen_positions m) (_escapee_blank_run_count m)
                      (_cycle_history m))).
Proof.
  intros Hs Hh sym tape1. unfold cython_step.
  rewrite (as_int_ok _ Hs), (as_int_ok _ Hh). simpl.
  destruct (decide (current_state m = HALT_STATE)) as [Hq|Hq]; [by left|right].
  pose proof (tape_getitem_content m (head_position m)) as Hc.
  subst sym tape1.
  destruct (tape_getitem (blank_symbol m) (tape m) (head_position m)) as [s tp] eqn:E.
  simpl in Hc. subst s. simpl.
  destruct (transition_table m !! (current_state m, tape_content m (head_position m)))
    as [[[ns w] mv]|] eqn:Et.
  - right. exists ns, w, mv. split; [done|]. split; [done|].
    simpl. by destruct (decide (ns = HALT_STATE)).
  - left. done.
Qed.

(** C6. A defined transition out of an active state: the symbol is written
    at the head cell (every other cell reads as before), the state becomes
    [next_state], the head moves by [move], the visited range is extended
    to the new head position, one step is counted, and the verdict is 1
    (continue) for an active next state and 0 (halt) for the halt state.
    The state and head position are read into C [int] variables, so they
    are taken within that type. *)
Theorem cython_step_defined_transition
    (m : TuringMachine) (next_state : Z) (write : string) (move : Z) :
  in_int (current_state m) ->
  in_int (head_position m) ->
  current_state m <> HALT_STATE ->
  transition_table m !! (current_state m, tape_content m (head_position m))
    = Some (next_state, write, move) ->
  exists m',
    cython_step m = Ok (if decide (next_state = HALT_STATE) then 0 else 1, m')
    /\ tape_content m' (head_position m) = write
    /\ (forall p, p <> head_position m -> tape_content m' p = tape_content m p)
    /\ current_state m' = next_state
    /\ head_position m' = head_position m + move
    /\ min_visited m' = Z.min (min_visited m) (head_position m')
    /\ max_visited m' = Z.max (max_visited m) (head_position m')
    /\ min_visited m' <= head_position m' <= max_visited m'
    /\ steps_taken m' = steps_taken m + 1
    /\ transition_table m' = transition_table m
    /\ num_states m' = num_states m
    /\ blank_symbol m' = blank_symbol m.
Proof.
  intros Hs Hh Hq Ht.
  destruct (cython_step_cases m Hs Hh) as [[Hq' _]|[(_ & Hn & _)|(ns & w & mv & _ & Ht' & Hstep)]];
    [done | congruence |].
  rewrite Ht in Ht'. injection Ht' as <- <- <-.
  eexists. split; [exact Hstep|]. simpl.
  split; [|split]; [| |repeat split; try done; lia].
  - unfold tape_content. simpl. by rewrite lookup_insert_eq.
  - intros p Hp. unfold tape_content. simpl.
    rewrite lookup_insert_ne by done. apply tape_getitem_lookup.
Qed.

Lemma cython_step_defined_transition_witness :
  exists m', cython_step (initial_machine demo_table 2 "0") = Ok (1, m')
             /\ tape_content m' 0 = "1"%string /\ head_position m' = 1.
Proof.
  destruct (cython_step_defined_transition (initial_machine demo_table 2 "0")
              2 "1"%string 1) as (m' & H1 & H2 & _ & _ & H3 & _).
  - vm_compute. split; discriminate.
  - vm_compute. split; discriminate.
  - discriminate.
  - reflexivity.
  - exists m'. split; [exact H1|]. split; [exact H2 | exact H3].
Defined.

(** C9. No table entry for (current state, symbol under the head): the
    call leaves the machine in the halt state and returns the halt verdict 0
    without raising; every tape cell reads as before, and the head position,
    the visited range and the step counter are unchanged.  The state and
    head position are taken within the C [int] the kernel reads them into. *)
Theorem cython_step_undefined_transition (m : TuringMachine) :
  in_int (current_state m) ->
  in_int (head_position m) ->
  transition_table m !! (current_state m, tape_content m (head_position m)) = None ->
  exists m',
    cython_step m = Ok (0, m')
    /\ current_state m' = HALT_STATE
    /\ (forall p, tape_content m' p = tape_content m p)
    /\ head_position m' = head_position m
    /\ min_visited m' = min_visited m
    /\ max_visited m' = max_visited m
    /\ steps_taken m' = steps_taken m
    /\ transition_table m' = transition_table m.
Proof.
  intros Hs Hh Ht.
  destruct (cython_step_cases m Hs Hh) as [[Hq Hstep]|[(_ & _ & Hstep)|(ns & w & mv & _ & Ht' & _)]];
    [| | congruence].
  - exists m. by split_and!.
  - eexists. split; [exact Hstep|]. simpl. split_and!; try done.
    intros p. unfold tape_content. simpl. apply tape_getitem_lookup.
Qed.

Lemma cython_step_undefined_transition_witness :
  exists m', cython_step (initial_machine ∅ 1 "0") = Ok (0, m')
             /\ current_state m' = HALT_STATE /\ steps_taken m' = 0.
Proof.
  destruct (cython_step_undefined_transition (initial_machine ∅ 1 "0"))
    as (m' & H1 & H2 & _ & _ & _ & _ & H3 & _).
  - vm_compute. split; discriminate.
  - vm_compute. split; discriminate.
  - reflexivity.
  - exists m'. split; [exact H1|]. split; [exact H2 | exact H3].
Defined.

Lemma step_obj_visited (m : TuringMachine) :
  min_visited (step_obj m) <= min_visited m
  /\ max_visited m <= max_visited (step_obj m)
  /\ (min_visited m <= head_position m <= max_visited m ->
      min_visited (step_obj m) <= head_position (step_obj m) <= max_visited (step_obj m)).
Proof.
  unfold step_obj.
  destruct (cython_step m) as [[v m']|e] eqn:E; [|lia].
  unfold cython_step in E.
  destruct (as_int (current_state m)) as [q|] eqn:Eq; [|done].
  destruct (as_int (head_position m)) as [h|] eqn:Eh; [|done].
  apply as_int_inv in Eq as [-> _]. apply as_int_inv in Eh as [-> _].
  simpl in E.
  destruct (decide (current_state m = HALT_STATE)).
  { injection E as _ <-. lia. }
  destruct (tape_getitem (blank_symbol m) (tape m) (head_position m)) as [s tp].
  simpl in E.
  destruct (transition_table m !! (current_state m, s)) as [[[ns w] mv]|].
  - simpl in E. destruct (decide (ns = HALT_STATE)); injection E as _ <-; simpl; lia.
  - injection E as _ <-. simpl. lia.
Qed.

(** C8. The visited range brackets the head after a call if it did before,
    and over any number of calls [min_visited] never increases and
    [max_visited] never decreases. *)
Theorem visited_range_invariant (m : TuringMachine) (k : nat) :
  (min_visited m <= head_position m <= max_visited m ->
   min_visited (step_obj m) <= head_position (step_obj m) <= max_visited (step_obj m))
  /\ min_visited (steps k m) <= min_visited m
  /\ max_visited m <= max_visited (steps k m).
Proof.
  split; [apply step_obj_visited|].
  revert m. induction k as [|k IH]; intros m; simpl; [lia|].
  specialize (IH (step_obj m)).
  pose proof (step_obj_visited m). lia.
Qed.

Lemma visited_range_invariant_witness :
  let m := initial_machine demo_table 2 "0" in
  min_visited (step_obj m) <= head_position (step_obj m) <= max_visited (step_obj m).
Proof.
  intros m. apply (visited_range_invariant m 0). vm_compute. split; discriminate.
Defined.

(** ** The runtime filters, one query at a time *)

(** C4, as stated, fails at the first query.  After the first step of the
    example machine the head is on cell 1, which is blank and was never
    recorded; the rule would count it ([run = 1]), the kernel only creates
    its attributes ([run = 0]). *)
Lemma check_escapee_first_query_counterexample :
  ~ (forall (m : TuringMachine) (b : bool) (m' : TuringMachine),
       check_escapee m = Ok (b, m') ->
       (default ∅ (_escapee_seen_positions m'), default 0 (_escapee_blank_run_count m'))
       = spec_escapee_update
           (bool_decide (tape_content m (head_position m) = blank_symbol m))
           (head_position m)
           (default ∅ (_escapee_seen_positions m))
           (default 0 (_escapee_blank_run_count m))).
Proof.
  intros H.
  pose (m1 := step_obj (initial_machine demo_table 2 "0")).
  specialize (H m1 false
                (set_escapee_blank_run_count 0 (set_escapee_seen_positions {[ 1 ]} m1))
                eq_refl).
  apply (f_equal snd) in H. vm_compute in H. discriminate H.
Qed.

(** C4, amended.  The first query only creates the attributes: [seen] is
    the singleton of the current head position, [run] is 0 and the verdict
    is [False].  Every later query follows the rule of the specification on
    the stored [seen] and [run], and its verdict is [True] exactly when the
    new [run] exceeds [num_states]; no cell changes what it reads as. *)
Theorem check_escapee_query (m : TuringMachine) :
  (_escapee_seen_positions m = None ->
   check_escapee m
   = Ok (false, set_escapee_blank_run_count 0
                  (set_escapee_seen_positions {[ head_position m ]} m)))
  /\ (forall (seen : gset Z) (run : Z),
        in_int (head_position m) ->
        _escapee_seen_positions m = Some seen ->
        _escapee_blank_run_count m = Some run ->
        exists m',
          check_escapee m
          = Ok (bool_decide (default 0 (_escapee_blank_run_count m') > num_states m), m')
          /\ (default ∅ (_escapee_seen_positions m'), default 0 (_escapee_blank_run_count m'))
             = spec_escapee_update
                 (bool_decide (tape_content m (head_position m) = blank_symbol m))
                 (head_position m) seen run
          /\ is_Some (_escapee_seen_positions m')
          /\ is_Some (_escapee_blank_run_count m')
          /\ (forall p, tape_content m' p = tape_content m p)
          /\ head_position m' = head_position m
          /\ current_state m' = current_state m).
Proof.
  split.
  - intros Hn. unfold check_escapee. by rewrite Hn.
  - intros seen run Hh Hseen Hrun. unfold check_escapee. rewrite Hseen.
    rewrite (as_int_ok _ Hh). simpl.
    pose proof (tape_getitem_content m (head_position m)) as Hc.
    pose proof (tape_getitem_lookup (blank_symbol m) (tape m) (head_position m)) as Hl.
    destruct (tape_getitem (blank_symbol m) (tape m) (head_position m)) as [s tp].
    simpl in Hc, Hl. subst s. simpl. unfold spec_escapee_update.
    destruct (bool_decide (tape_content m (head_position m) = blank_symbol m)
              && bool_decide (head_position m ∉ seen)) eqn:E; simpl.
    + rewrite Hrun. simpl.
      destruct (decide (run + 1 > num_states m)) as [Hgt|Hgt]; eexists; simpl;
        (split; [f_equal; f_equal; symmetry;
                 first [by apply bool_decide_eq_true | by apply bool_decide_eq_false] |]);
        simpl; repeat split; eauto.
    + destruct (decide (0 > num_states m)) as [Hgt|Hgt]; eexists; simpl;
        (split; [f_equal; f_equal; symmetry;
                 first [by apply bool_decide_eq_true | by apply bool_decide_eq_false] |]);
        simpl; rewrite ?Hseen; repeat split; eauto.
Qed.

Lemma check_escapee_query_witness :
  let m1 := step_obj (initial_machine demo_table 2 "0") in
  let m := set_escapee_blank_run_count 0 (set_escapee_seen_positions {[ 1 ]} m1) in
  check_escapee m1 = Ok (false, m)
  /\ exists b m', check_escapee m = Ok (b, m') /\ head_position m' = 1.
Proof.
  intros m1 m. split.
  - apply (proj1 (check_escapee_query m1)). reflexivity.
  - destruct (proj2 (check_escapee_query m) {[ 1 ]} 0) as (m' & H & _ & _ & _ & _ & Hh & _).
    + vm_compute. split; discriminate.
    + reflexivity.
    + reflexivity.
    + eexists _, m'. split; [exact H | exact Hh].
Defined.

Lemma deque_append_length {A} (maxlen : nat) (d : list A) (x : A) :
  length (deque_append maxlen d x) = Nat.min maxlen (length d + 1).
Proof. unfold deque_append. rewrite length_drop, length_app. simpl. lia. Qed.

Lemma deque_append_suffix {A} (maxlen : nat) (d : list A) (x : A) :
  deque_append maxlen d x `suffix_of` d ++ [x].
Proof. unfold deque_append. apply suffix_drop. Qed.

Lemma deque_append_last {A} (maxlen : nat) (d : list A) (x : A) :
  (0 < maxlen)%nat -> last (deque_append maxlen d x) = Some x.
Proof.
  intros Hpos. unfold deque_append.
  rewrite length_app. simpl.
  destruct (decide (length d + 1 <= maxlen)%nat) as [Hle|Hgt].
  - replace (length d + 1 - maxlen)%nat with 0%nat by lia.
    rewrite drop_0. apply last_snoc.
  - rewrite drop_app_le by lia. apply last_snoc.
Qed.

(** C5, as stated, fails on the snapshot.  The ping-pong machine is back in
    state 2 on cell 1 after its third step, with cells 0..1 reading as they
    did after the first step, so a filter comparing the content of
    [min_visited..max_visited] fires at the third query.  The kernel
    compares the stored dictionary entries: cell 1 was not stored after the
    first step and is after the third, and the kernel fires one step later. *)
Lemma check_cycle_two_snapshot_counterexample :
  run_cycle_two 4 (initial_machine pingpong_table 2 "0") = [false; false; false; true]
  /\ spec_run_cycle_two 4 [] (initial_machine pingpong_table 2 "0")
     = [false; false; true; true].
Proof. split; vm_compute; reflexivity. Qed.

(** C5, amended.  The history holds at most the last three configurations
    [(state, head position, tape_snapshot)], where [tape_snapshot] is the
    set of the (cell, symbol) entries stored in the tape dictionary (the
    cells read or written so far); after appending the current
    configuration the verdict is [True] exactly when the history holds
    three configurations and the first equals the third. *)
Theorem check_cycle_two_query (m : TuringMachine) :
  let config := (current_state m, head_position m, tape m) in
  let history' := deque_append 3 (default [] (_cycle_history m)) config in
  check_cycle_two m
  = (bool_decide (length history' = 3%nat) && bool_decide (history' !! 0%nat = history' !! 2%nat),
     set_cycle_history history' m)
  /\ (length history' <= 3)%nat
  /\ history' `suffix_of` default [] (_cycle_history m) ++ [config]
  /\ last history' = Some config
  /\ ((check_cycle_two m).1 = true <->
      length history' = 3%nat
      /\ exists c, history' !! 0%nat = Some c /\ history' !! 2%nat = Some c).
Proof.
  intros config history'.
  assert (Heq : check_cycle_two m
    = (bool_decide (length history' = 3%nat) && bool_decide (history' !! 0%nat = history' !! 2%nat),
       set_cycle_history history' m)).
  { unfold check_cycle_two. fold config. fold history'.
    by destruct (bool_decide (length history' = 3%nat)
                 && bool_decide (history' !! 0%nat = history' !! 2%nat)). }
  split; [exact Heq|].
  split. { subst history'. rewrite deque_append_length. lia. }
  split. { apply deque_append_suffix. }
  split. { apply deque_append_last. lia. }
  rewrite Heq. simpl. rewrite andb_true_iff, !bool_decide_eq_true.
  split.
  - intros [Hlen H02]. split; [done|].
    destruct (history' !! 2%nat) as [c|] eqn:E2.
    + exists c. done.
    + apply lookup_ge_None in E2. lia.
  - intros [Hlen (c & H0 & H2)]. split; [done|]. by rewrite H0, H2.
Qed.

(** ** The codec: digits *)

Lemma seqZ_symbols : seqZ 0 NUM_SYMBOLS_C = [0; 1].
Proof. reflexivity. Qed.

Lemma div_pow_succ (k b : Z) (i : Z) :
  0 < b -> 0 <= i -> k / b ^ (i + 1) = k / b ^ i / b.
Proof.
  intros Hb Hi. rewrite Z.pow_add_r, Z.pow_1_r by lia.
  rewrite Z.div_div; [done | | lia].
  apply Z.pow_nonzero; lia.
Qed.

Lemma decode_code_spec (d : Z) :
  0 <= d < 2 ^ 31 -> decode_code d = Ok (spec_decode_digit d).
Proof.
  intros Hd. unfold decode_code, spec_decode_digit, NUM_SYMBOLS_C.
  destruct (decide (d < 2)) as [Hlt|Hge].
  - unfold symbol_at. destruct (decide (0 <= d < 2)) as [_|]; [|lia].
    destruct (decide (d = 0)) as [->|]; [done|].
    destruct (decide (d = 1)) as [->|]; [done|lia].
  - destruct (decide (d = 0)); [lia|]. destruct (decide (d = 1)); [lia|].
    change (2 * 2) with 4.
    assert (H4 : 0 <= (d - 2) mod 4 < 4) by (apply Z.mod_pos_bound; lia).
    assert (Hdiv : (d - 2) mod 4 / 2 = ((d - 2) / 2) mod 2).
    { replace 4 with (2 * 2) by lia.
      rewrite Z.rem_mul_r by lia.
      rewrite (Z.mul_comm 2), Z.div_add by lia.
      rewrite (Z.div_small ((d - 2) mod 2)) by (apply Z.mod_pos_bound; lia).
      lia. }
    assert (Hmod : ((d - 2) mod 4) mod 2 = (d - 2) mod 2).
    { replace 4 with (2 * 2) by lia.
      rewrite Z.rem_mul_r by lia.
      rewrite (Z.mul_comm 2), Z.mod_add by lia.
      apply Z.mod_mod; lia. }
    rewrite Hdiv, Hmod.
    assert (H2 : 0 <= ((d - 2) / 2) mod 2 < 2) by (apply Z.mod_pos_bound; lia).
    unfold symbol_at. destruct (decide (0 <= ((d - 2) / 2) mod 2 < 2)) as [_|]; [|lia].
    assert (Hq : 0 <= (d - 2) / 4 < 2 ^ 29).
    { split; [apply Z.div_pos; lia|]. apply Z.div_lt_upper_bound; lia. }
    rewrite wrap_int_id by (unfold in_int, int_min, int_max; lia).
    unfold spec_symbol.
    destruct (decide (((d - 2) / 2) mod 2 = 0)) as [->|Hne].
    + rewrite (Z.add_comm 1). reflexivity.
    + replace (((d - 2) / 2) mod 2) with 1 by lia. rewrite (Z.add_comm 1). reflexivity.
Qed.

Lemma extract_digits_loop (base k : Z) (m : nat) (d : list (option Z)) :
  0 < base -> (m <= 20)%nat -> length d = 20%nat ->
  exists d',
    for_each (seqZ 0 (Z.of_nat m)) (extract_digit base) (d, k)
    = Ok (d', k / base ^ Z.of_nat m)
    /\ length d' = 20%nat
    /\ (forall i, (i < m)%nat ->
          d' !! i = Some (Some (wrap_int ((k / base ^ Z.of_nat i) mod base))))
    /\ (forall i, (m <= i)%nat -> d' !! i = d !! i).
Proof.
  intros Hb. induction m as [|m IH]; intros Hm Hlen.
  - exists d. simpl. rewrite Z.div_1_r. repeat split; try done; lia.
  - destruct IH as (d1 & Hrun & Hlen1 & Hlo & Hhi); [lia|done|].
    rewrite seqZ_S, for_each_app, Hrun. simpl.
    unfold digits_set, DIGITS_LEN.
    destruct (decide (0 <= 0 + Z.of_nat m < 20)) as [_|]; [|lia].
    simpl. eexists. split.
    { do 2 f_equal. rewrite Nat2Z.inj_succ, <- Z.add_1_r.
      symmetry. apply div_pow_succ; lia. }
    replace (Z.to_nat (0 + Z.of_nat m)) with m by lia.
    split; [by rewrite length_insert|]. split.
    + intros i Hi. destruct (decide (i = m)) as [->|Hne].
      * rewrite list_lookup_insert_eq by lia. done.
      * rewrite list_lookup_insert_ne by done. apply Hlo. lia.
    + intros i Hi. rewrite list_lookup_insert_ne by lia. apply Hhi. lia.
Qed.

Lemma elem_of_table_keys (n : Z) (key : Z * string) :
  key ∈ table_keys n <->
  1 <= key.1 <= n /\ (key.2 = "0"%string \/ key.2 = "1"%string).
Proof.
  unfold table_keys. rewrite elem_of_list_to_set, list_elem_of_bind.
  destruct key as [s sym]. simpl. split.
  - intros (s' & Hin & Hs). apply elem_of_seqZ in Hs.
    apply elem_of_cons in Hin as [[= -> ->]|Hin]; [split; [lia | by left]|].
    apply elem_of_cons in Hin as [[= -> ->]|Hin]; [split; [lia | by right]|].
    by apply elem_of_nil in Hin.
  - intros [Hs [->| ->]]; exists s; (split; [|apply elem_of_seqZ; lia]).
    + apply elem_of_cons. by left.
    + apply elem_of_cons. right. apply elem_of_cons. by left.
Qed.

Lemma decoded_lookup_is_Some (n k : Z) (key : Z * string) :
  is_Some (decoded_lookup n k n key) <-> key ∈ table_keys n.
Proof.
  rewrite elem_of_table_keys. unfold decoded_lookup.
  destruct (decide (1 <= key.1 <= n)) as [Hs|Hs].
  - destruct (decide (key.2 = "0"%string)) as [H0|H0]; [by split; eauto|].
    destruct (decide (key.2 = "1"%string)) as [H1|H1]; [by split; eauto|].
    split; [by intros [? ?]|]. intros [_ [?|?]]; done.
  - split; [by intros [? ?]|]. intros [? _]. done.
Qed.

Lemma big_endian_digit_bound (b len k pos : Z) :
  0 < b -> 0 <= big_endian_digit b len k pos < b.
Proof. intros Hb. unfold big_endian_digit. apply Z.mod_pos_bound. lia. Qed.

Lemma decode_cell_ok (digits : list (option Z)) (state sym_idx : Z) (T : tm_table)
    (idx c : Z) :
  0 <= idx <= 19 ->
  digits !! Z.to_nat idx = Some (Some c) ->
  0 <= c < 2 ^ 31 ->
  sym_idx = 0 \/ sym_idx = 1 ->
  decode_cell digits state sym_idx (T, idx)
  = Ok (<[(state, spec_symbol sym_idx) := spec_decode_digit c]> T, idx - 1).
Proof.
  intros Hidx Hd Hc Hj. unfold decode_cell, digits_get, DIGITS_LEN.
  destruct (decide (0 <= idx < 20)) as [_|]; [|lia].
  rewrite Hd. cbn [mbind result_bind].
  rewrite (decode_code_spec c Hc).
  rewrite (wrap_int_id (idx - 1)) by (unfold in_int, int_min, int_max; lia).
  by destruct Hj as [-> | ->].
Qed.

Lemma decode_state_cells (digits : list (option Z)) (state : Z) (T : tm_table)
    (idx c0 c1 : Z) :
  1 <= idx <= 19 ->
  digits !! Z.to_nat idx = Some (Some c0) ->
  digits !! Z.to_nat (idx - 1) = Some (Some c1) ->
  0 <= c0 < 2 ^ 31 -> 0 <= c1 < 2 ^ 31 ->
  for_each (seqZ 0 NUM_SYMBOLS_C)
    (fun sym_idx_c st => decode_cell digits state sym_idx_c st) (T, idx)
  = Ok (<[(state, "1"%string) := spec_decode_digit c1]>
          (<[(state, "0"%string) := spec_decode_digit c0]> T), idx - 2).
Proof.
  intros Hidx H0 H1 Hc0 Hc1. rewrite seqZ_symbols. cbn [for_each].
  rewrite (decode_cell_ok digits state 0 T idx c0) by (done || lia || by left).
  cbn [mbind result_bind].
  rewrite (decode_cell_ok digits state 1 _ (idx - 1) c1) by (done || lia || by right).
  cbn [mbind result_bind]. do 2 f_equal. lia.
Qed.

Lemma decode_table_loop (n k : Z) (digits : list (option Z)) (j : nat) :
  1 <= n <= 10 -> Z.of_nat j <= n ->
  (forall i, (Z.of_nat i < 2 * n) ->
     digits !! i = Some (Some ((k / (4 * n + 2) ^ Z.of_nat i) mod (4 * n + 2)))) ->
  exists T,
    for_each (seqZ 1 (Z.of_nat j))
      (fun state st =>
         for_each (seqZ 0 NUM_SYMBOLS_C)
           (fun sym_idx_c st => decode_cell digits state sym_idx_c st) st)
      (∅, 2 * n - 1)
    = Ok (T, 2 * n - 1 - 2 * Z.of_nat j)
    /\ forall key, T !! key = decoded_lookup n k (Z.of_nat j) key.
Proof.
  intros Hn Hj Hdig. induction j as [|j IH].
  - exists ∅. split; [simpl; do 2 f_equal; lia|].
    intros key. rewrite lookup_empty. unfold decoded_lookup.
    destruct (decide (1 <= key.1 <= Z.of_nat 0)); [lia|done].
  - destruct IH as (T & Hrun & HT); [lia|].
    rewrite seqZ_S, for_each_app, Hrun. cbn [mbind result_bind for_each].
    set (b := 4 * n + 2) in *.
    set (idx := 2 * n - 1 - 2 * Z.of_nat j).
    assert (Hidx : 1 <= idx <= 19) by lia.
    pose proof (Z.mod_pos_bound (k / b ^ idx) b) as Hb0.
    pose proof (Z.mod_pos_bound (k / b ^ (idx - 1)) b) as Hb1.
    rewrite (decode_state_cells digits _ T idx
               ((k / b ^ idx) mod b) ((k / b ^ (idx - 1)) mod b)); [|lia| | |lia|lia].
    2:{ rewrite Hdig by lia. by rewrite Z2Nat.id by lia. }
    2:{ rewrite Hdig by lia. by rewrite Z2Nat.id by lia. }
    cbn [mbind result_bind].
    eexists. split; [do 2 f_equal; lia|].
    intros [s sym]. unfold decoded_lookup. simpl.
    destruct (decide ((s, sym) = (1 + Z.of_nat j, "1"%string))) as [[= -> ->]|Hne1].
    { rewrite lookup_insert_eq.
      destruct (decide (1 <= 1 + Z.of_nat j <= Z.of_nat (S j))) as [_|]; [|lia].
      simpl. do 2 f_equal. unfold big_endian_digit. fold b.
      do 3 f_equal. lia. }
    rewrite lookup_insert_ne by done.
    destruct (decide ((s, sym) = (1 + Z.of_nat j, "0"%string))) as [[= -> ->]|Hne0].
    { rewrite lookup_insert_eq.
      destruct (decide (1 <= 1 + Z.of_nat j <= Z.of_nat (S j))) as [_|]; [|lia].
      simpl. do 2 f_equal. unfold big_endian_digit. fold b.
      do 3 f_equal. lia. }
    rewrite lookup_insert_ne by done.
    rewrite HT. unfold decoded_lookup. simpl.
    destruct (decide (1 <= s <= Z.of_nat j)) as [Hs|Hs].
    + destruct (decide (1 <= s <= Z.of_nat (S j))); [done|lia].
    + destruct (decide (1 <= s <= Z.of_nat (S j))) as [Hs'|]; [|done].
      assert (s = 1 + Z.of_nat j) as -> by lia.
      destruct (decide (sym = "0"%string)) as [->|]; [done|].
      destruct (decide (sym = "1"%string)) as [->|]; done.
Qed.

Lemma int_to_tm_table_lookup (n k : Z) :
  1 <= n <= 10 -> in_long k ->
  exists T, int_to_tm_table k n = Ok T
            /\ forall key, T !! key = decoded_lookup n k n key.
Proof.
  intros Hn Hk. unfold int_to_tm_table.
  rewrite (as_long_ok _ Hk). cbn [mbind result_bind].
  rewrite as_int_ok by (unfold in_int, int_min, int_max; lia).
  cbn [mbind result_bind]. unfold int_to_tm_table_c.
  rewrite (wrap_int_id (4 * n + 2)), (wrap_int_id (2 * n)), (wrap_int_id (2 * n - 1))
    by (unfold in_int, int_min, int_max; lia).
  destruct (extract_digits_loop (4 * n + 2) k (Z.to_nat (2 * n)) digits_fresh)
    as (d' & Hrun & Hlen & Hlo & _); [lia|lia|done|].
  rewrite Z2Nat.id in Hrun by lia. rewrite Hrun. cbn [mbind result_bind].
  destruct (decode_table_loop n k d' (Z.to_nat n)) as (T & Hrun2 & HT); [done|lia| |].
  { intros i Hi. rewrite Hlo by lia. do 2 f_equal.
    apply wrap_int_id. unfold in_int, int_min, int_max.
    pose proof (Z.mod_pos_bound (k / (4 * n + 2) ^ Z.of_nat i) (4 * n + 2)). lia. }
  rewrite Z2Nat.id in Hrun2, HT by lia.
  rewrite Hrun2. cbn [mbind result_bind]. exists T. done.
Qed.

Lemma int_to_tm_table_zero (k : Z) : in_long k -> int_to_tm_table k 0 = Ok ∅.
Proof.
  intros Hk. unfold int_to_tm_table. rewrite (as_long_ok _ Hk). reflexivity.
Qed.

(** C7. For a state count within the digit buffer ([0..10]) and a code
    that fits the C [long] parameter, the decoder returns a table whose
    entry for [(state, symbol)] is the transition of the digit at position
    [2·(state−1) + symbol_index] of the code written with [2n] big-endian
    digits in base [4n+2], decoded as the specification says; the table has
    no other entries. *)
Theorem int_to_tm_table_digit_formula (n k : Z) :
  0 <= n <= 10 ->
  in_long k ->
  exists t,
    int_to_tm_table k n = Ok t
    /\ (forall state sym_idx,
          1 <= state <= n -> 0 <= sym_idx < 2 ->
          SYMBOLS_PY !! Z.to_nat sym_idx = Some (spec_symbol sym_idx)
          /\ t !! (state, spec_symbol sym_idx)
             = Some (spec_decode_digit
                       (big_endian_digit (4 * n + 2) (2 * n) k
                          (2 * (state - 1) + sym_idx))))
    /\ dom t = table_keys n.
Proof.
  intros Hn Hk. destruct (decide (n = 0)) as [->|Hne].
  { exists ∅. split; [by apply int_to_tm_table_zero|]. split; [intros; lia|].
    apply set_eq. intros key. rewrite elem_of_table_keys, dom_empty.
    split; [by intros ?%elem_of_empty | lia]. }
  destruct (int_to_tm_table_lookup n k ltac:(lia) Hk) as (T & Hrun & HT).
  exists T. split; [done|]. split.
  - intros state sym_idx Hs Hj.
    assert (sym_idx = 0 \/ sym_idx = 1) as [-> | ->] by lia.
    + split; [done|]. rewrite HT. unfold decoded_lookup. simpl.
      destruct (decide (1 <= state <= n)); [|lia].
      do 3 f_equal. lia.
    + split; [done|]. rewrite HT. unfold decoded_lookup. simpl.
      destruct (decide (1 <= state <= n)); [|lia]. done.
  - apply set_eq. intros key.
    rewrite elem_of_dom, HT. apply decoded_lookup_is_Some.
Qed.

Lemma int_to_tm_table_digit_formula_witness :
  exists t, int_to_tm_table 29 1 = Ok t
            /\ t !! (1, "0"%string) = Some (1, "1"%string, -1).
Proof.
  destruct (int_to_tm_table_digit_formula 1 29) as (t & Hrun & Hcell & _).
  - lia.
  - vm_compute. split; discriminate.
  - exists t. split; [exact Hrun|].
    destruct (Hcell 1 0) as [_ H]; [lia | lia | exact H].
Defined.

(** ** The codec: Horner evaluation *)

Section EncPrefix.
Variable code : Z -> string -> Z.
Variable b : Z.
Hypothesis Hb : 0 < b.

Let E := enc_prefix code b.

Lemma enc_prefix_S (j : nat) :
  E (S j) = (E j * b + code (Z.of_nat (S j)) "0") * b + code (Z.of_nat (S j)) "1".
Proof. reflexivity. Qed.

Section Bounded.
Variable n : nat.
Hypothesis Hcode :
  forall (s : nat) (sym : string), (1 <= s <= n)%nat ->
    sym = "0"%string \/ sym = "1"%string -> 0 <= code (Z.of_nat s) sym < b.

Lemma enc_prefix_bound (j : nat) :
  (j <= n)%nat -> 0 <= E j < b ^ (2 * Z.of_nat j).
Proof.
  induction j as [|j IH]; intros Hj.
  - unfold E. simpl. lia.
  - rewrite enc_prefix_S.
    specialize (IH ltac:(lia)).
    pose proof (Hcode (S j) "0" ltac:(lia) ltac:(by left)) as H0.
    pose proof (Hcode (S j) "1" ltac:(lia) ltac:(by right)) as H1.
    replace (2 * Z.of_nat (S j)) with (2 * Z.of_nat j + 1 + 1) by lia.
    rewrite !Z.pow_add_r, !Z.pow_1_r by lia.
    set (P := b ^ (2 * Z.of_nat j)) in *. nia.
Qed.

Lemma enc_prefix_S_div (j : nat) :
  (S j <= n)%nat ->
  E (S j) / b = E j * b + code (Z.of_nat (S j)) "0"
  /\ E (S j) mod b = code (Z.of_nat (S j)) "1".
Proof.
  intros Hj. rewrite enc_prefix_S.
  pose proof (Hcode (S j) "1" ltac:(lia) ltac:(by right)) as H1.
  split.
  - rewrite Z.div_add_l by lia. rewrite Z.div_small by lia. lia.
  - rewrite Z.add_comm, Z.mod_add by lia. apply Z.mod_small. lia.
Qed.

Lemma enc_prefix_div (d j : nat) :
  (j + d <= n)%nat -> E (j + d) / b ^ (2 * Z.of_nat d) = E j.
Proof.
  induction d as [|d IH]; intros Hj.
  - rewrite Nat.add_0_r. simpl. apply Z.div_1_r.
  - replace (2 * Z.of_nat (S d)) with (1 + 1 + 2 * Z.of_nat d) by lia.
    rewrite !Z.pow_add_r, !Z.pow_1_r by lia.
    assert (Hp : 0 < b ^ (2 * Z.of_nat d)) by (apply Z.pow_pos_nonneg; lia).
    rewrite <- !Z.div_div by lia.
    replace (j + S d)%nat with (S (j + d)) by lia.
    destruct (enc_prefix_S_div (j + d) ltac:(lia)) as [-> _].
    pose proof (Hcode (S (j + d)) "0" ltac:(lia) ltac:(by left)) as H0.
    rewrite Z.div_add_l by lia. rewrite (Z.div_small (code _ _)) by lia.
    rewrite Z.add_0_r. apply IH. lia.
Qed.

(** The digits of the encoded number are the cell codes. *)
Lemma enc_prefix_digits (s : nat) :
  (1 <= s <= n)%nat ->
  big_endian_digit b (2 * Z.of_nat n) (E n) (2 * (Z.of_nat s - 1))
  = code (Z.of_nat s) "0"
  /\ big_endian_digit b (2 * Z.of_nat n) (E n) (2 * (Z.of_nat s - 1) + 1)
     = code (Z.of_nat s) "1".
Proof.
  intros Hs. unfold big_endian_digit.
  destruct s as [|s]; [lia|].
  pose proof (enc_prefix_div (n - S s) (S s) ltac:(lia)) as Hdiv.
  replace (S s + (n - S s))%nat with n in Hdiv by lia.
  destruct (enc_prefix_S_div s ltac:(lia)) as [Hq Hr].
  pose proof (Hcode (S s) "0" ltac:(lia) ltac:(by left)) as H0.
  split.
  - replace (2 * Z.of_nat n - 1 - 2 * (Z.of_nat (S s) - 1))
      with (2 * Z.of_nat (n - S s) + 1) by lia.
    rewrite div_pow_succ by lia. rewrite Hdiv, Hq.
    rewrite Z.add_comm, Z.mod_add by lia. apply Z.mod_small. lia.
  - replace (2 * Z.of_nat n - 1 - (2 * (Z.of_nat (S s) - 1) + 1))
      with (2 * Z.of_nat (n - S s)) by lia.
    by rewrite Hdiv.
Qed.
End Bounded.

(** Conversely, the cell codes being the digits of [k], the encoded
    number is [k]. *)
Lemma enc_prefix_of_digits (n : nat) (k : Z) (j : nat) :
  0 <= k < b ^ (2 * Z.of_nat n) ->
  (forall s : nat, (1 <= s <= n)%nat ->
     code (Z.of_nat s) "0" = big_endian_digit b (2 * Z.of_nat n) k (2 * (Z.of_nat s - 1))
     /\ code (Z.of_nat s) "1"
        = big_endian_digit b (2 * Z.of_nat n) k (2 * (Z.of_nat s - 1) + 1)) ->
  (j <= n)%nat ->
  E j = k / b ^ (2 * Z.of_nat n - 2 * Z.of_nat j).
Proof.
  intros Hk Hdig. induction j as [|j IH]; intros Hj.
  - unfold E. simpl. rewrite Z.sub_0_r. symmetry. apply Z.div_small. done.
  - rewrite enc_prefix_S, IH by lia.
    destruct (Hdig (S j) ltac:(lia)) as [-> ->].
    unfold big_endian_digit.
    set (m := 2 * Z.of_nat n - 2 * Z.of_nat (S j)).
    replace (2 * Z.of_nat n - 2 * Z.of_nat j) with (m + 1 + 1) by lia.
    replace (2 * Z.of_nat n - 1 - 2 * (Z.of_nat (S j) - 1)) with (m + 1) by lia.
    replace (2 * Z.of_nat n - 1 - (2 * (Z.of_nat (S j) - 1) + 1)) with m by lia.
    rewrite (div_pow_succ k b (m + 1)) by lia.
    pose proof (Z.div_mod (k / b ^ (m + 1)) b ltac:(lia)) as H1.
    replace (k / b ^ (m + 1) / b * b + (k / b ^ (m + 1)) mod b)
      with (k / b ^ (m + 1)) by lia.
    rewrite (div_pow_succ k b m) by lia.
    pose proof (Z.div_mod (k / b ^ m) b ltac:(lia)) as H2. lia.
Qed.
End EncPrefix.

Lemma enc_prefix_ext (c1 c2 : Z -> string -> Z) (b : Z) (j : nat) :
  (forall (s : nat) (sym : string), (1 <= s <= j)%nat ->
     sym = "0"%string \/ sym = "1"%string -> c1 (Z.of_nat s) sym = c2 (Z.of_nat s) sym) ->
  enc_prefix c1 b j = enc_prefix c2 b j.
Proof.
  induction j as [|j IH]; intros H; [done|].
  simpl. rewrite IH by (intros; apply H; [lia|done]).
  rewrite (H (S j) "0"%string), (H (S j) "1"%string) by (lia || auto). done.
Qed.

(** ** The codec: single transitions *)

Lemma encode_valid_transition (n : Z) (tr : transition) :
  1 <= n <= 2 ^ 28 -> valid_transition n tr ->
  let c := _encode_transition_cy tr.1.1
             (if decide (tr.1.2 = "0"%string) then "0"%string else "1"%string) tr.2 n in
  0 <= c < 4 * n + 2 /\ spec_decode_digit c = tr.
Proof.
  intros Hn. destruct tr as [[ns w] mv]. unfold valid_transition. simpl.
  intros [Hw [[-> ->]|[Hns Hmv]]].
  - unfold _encode_transition_cy, HALT_STATE_C. simpl.
    destruct Hw as [-> | ->]; simpl; (split; [lia | reflexivity]).
  - unfold _encode_transition_cy, HALT_STATE_C, NUM_SYMBOLS_C, MOVE_L_C.
    destruct (decide (ns = 0)); [lia|].
    set (wi := if decide ((if decide (w = "0"%string) then "0"%string else "1"%string)
                          = "0"%string) then 0 else 1).
    set (mi := if decide (mv = -1) then 0 else 1).
    assert (Hwi : w = spec_symbol wi /\ (wi = 0 \/ wi = 1)).
    { subst wi. destruct Hw as [-> | ->]; simpl; split; auto. }
    assert (Hmi : mv = (if decide (mi = 0) then -1 else 1) /\ (mi = 0 \/ mi = 1)).
    { subst mi. destruct Hmv as [-> | ->]; simpl; split; auto. }
    clearbody wi mi. destruct Hwi as [-> Hwi], Hmi as [-> Hmi].
    rewrite wrap_int_id by (unfold in_int, int_min, int_max; lia).
    split; [lia|].
    unfold spec_decode_digit.
    set (c := 2 + (ns - 1) * (2 * 2) + (wi * 2 + mi)).
    destruct (decide (c = 0)); [lia|]. destruct (decide (c = 1)); [lia|].
    replace (c - 2) with ((ns - 1) * 4 + (wi * 2 + mi)) by lia.
    assert (H1 : ((ns - 1) * 4 + (wi * 2 + mi)) / 4 = ns - 1)
      by (Z.div_mod_to_equations; lia).
    assert (H2 : (((ns - 1) * 4 + (wi * 2 + mi)) / 2) mod 2 = wi)
      by (Z.div_mod_to_equations; lia).
    assert (H3 : ((ns - 1) * 4 + (wi * 2 + mi)) mod 2 = mi)
      by (Z.div_mod_to_equations; lia).
    rewrite H1, H2, H3. do 2 f_equal. lia.
Qed.

Lemma encode_decoded_digit (n d : Z) :
  1 <= n <= 2 ^ 28 -> 0 <= d < 4 * n + 2 ->
  let tr := spec_decode_digit d in
  valid_transition n tr
  /\ _encode_transition_cy tr.1.1
       (if decide (tr.1.2 = "0"%string) then "0"%string else "1"%string) tr.2 n = d.
Proof.
  intros Hn Hd. unfold spec_decode_digit.
  destruct (decide (d = 0)) as [->|H0].
  { split; [|reflexivity]. split; [by left|]. by left. }
  destruct (decide (d = 1)) as [->|H1].
  { split; [|reflexivity]. split; [by right|]. by left. }
  simpl.
  assert (Hdiv : 0 <= (d - 2) / 4 < n) by (Z.div_mod_to_equations; lia).
  assert (Hw : ((d - 2) / 2) mod 2 = 0 \/ ((d - 2) / 2) mod 2 = 1)
    by (Z.div_mod_to_equations; lia).
  assert (Hm : (d - 2) mod 2 = 0 \/ (d - 2) mod 2 = 1)
    by (Z.div_mod_to_equations; lia).
  assert (Hrec : (d - 2) / 4 * 4 + ((d - 2) / 2) mod 2 * 2 + (d - 2) mod 2 = d - 2)
    by (Z.div_mod_to_equations; lia).
  set (q := (d - 2) / 4) in *. set (w := ((d - 2) / 2) mod 2) in *.
  set (m := (d - 2) mod 2) in *. clearbody q w m.
  split.
  - unfold valid_transition. simpl. split.
    + unfold spec_symbol. destruct (decide (w = 0)); auto.
    + right. split; [lia|]. destruct (decide (m = 0)); auto.
  - unfold _encode_transition_cy, HALT_STATE_C, NUM_SYMBOLS_C, MOVE_L_C.
    destruct (decide (1 + q = 0)); [lia|].
    unfold spec_symbol.
    destruct Hw as [-> | ->], Hm as [-> | ->]; simpl;
      (rewrite wrap_int_id; [lia | unfold in_int, int_min, int_max; lia]).
Qed.

(** ** The codec: the encoding loop *)

Lemma tm_to_int_cell_ok (t : tm_table) (n b s j num : Z) (tr : transition) :
  j = 0 \/ j = 1 ->
  t !! (s, spec_symbol j) = Some tr ->
  in_int tr.1.1 -> in_int tr.2 ->
  tm_to_int_cell t n b s j num
  = Ok (wrap_long (num * b + cell_code t n s (spec_symbol j))).
Proof.
  intros Hj Ht Hns Hmv. unfold tm_to_int_cell, cell_code.
  assert (symbol_at j = Ok (spec_symbol j)) as -> by (by destruct Hj as [-> | ->]).
  cbn [mbind result_bind]. rewrite Ht.
  rewrite (as_int_ok _ Hns). cbn [mbind result_bind].
  rewrite (as_int_ok _ Hmv). done.
Qed.

Lemma tm_to_int_loop (t : tm_table) (n b : Z) (N : nat) :
  0 < b -> b ^ (2 * Z.of_nat N) <= 2 ^ 63 ->
  (forall (s : nat) (sym : string), (1 <= s <= N)%nat ->
     sym = "0"%string \/ sym = "1"%string ->
     exists tr, t !! (Z.of_nat s, sym) = Some tr /\ in_int tr.1.1 /\ in_int tr.2
                /\ 0 <= cell_code t n (Z.of_nat s) sym < b) ->
  forall j : nat, (j <= N)%nat ->
    for_each (seqZ 1 (Z.of_nat j))
      (fun state number =>
         for_each (seqZ 0 NUM_SYMBOLS_C)
           (fun sym_idx number => tm_to_int_cell t n b state sym_idx number) number)
      0
    = Ok (enc_prefix (cell_code t n) b j).
Proof.
  intros Hb Hpow Hcells.
  assert (Hcode : forall (s : nat) (sym : string), (1 <= s <= N)%nat ->
            sym = "0"%string \/ sym = "1"%string ->
            0 <= cell_code t n (Z.of_nat s) sym < b).
  { intros s sym Hs Hsym. destruct (Hcells s sym Hs Hsym) as (? & _ & _ & _ & H). done. }
  induction j as [|j IH]; intros Hj; [done|].
  rewrite seqZ_S, for_each_app, IH by lia. cbn [mbind result_bind for_each].
  rewrite seqZ_symbols. cbn [for_each].
  replace (1 + Z.of_nat j) with (Z.of_nat (S j)) by lia.
  destruct (Hcells (S j) "0"%string ltac:(lia) ltac:(by left)) as (tr0 & Ht0 & Hi0 & Hm0 & Hc0).
  destruct (Hcells (S j) "1"%string ltac:(lia) ltac:(by right)) as (tr1 & Ht1 & Hi1 & Hm1 & Hc1).
  pose proof (enc_prefix_bound (cell_code t n) b Hb N Hcode j ltac:(lia)) as Hbj.
  pose proof (enc_prefix_bound (cell_code t n) b Hb N Hcode (S j) Hj) as HbS.
  assert (Hmono : b ^ (2 * Z.of_nat (S j)) <= b ^ (2 * Z.of_nat N))
    by (apply Z.pow_le_mono_r; lia).
  rewrite (tm_to_int_cell_ok t n b _ 0 _ tr0) by (auto || done).
  cbn [mbind result_bind].
  change (spec_symbol 0) with "0"%string.
  assert (Hmid : 0 <= enc_prefix (cell_code t n) b j * b
                      + cell_code t n (Z.of_nat (S j)) "0" < 2 ^ 63).
  { simpl in HbS. nia. }
  rewrite wrap_long_id by (unfold in_long, long_min, long_max; lia).
  rewrite (tm_to_int_cell_ok t n b _ 1 _ tr1) by (auto || done).
  cbn [mbind result_bind].
  change (spec_symbol 1) with "1"%string.
  rewrite wrap_long_id; [done|].
  simpl in HbS. unfold in_long, long_min, long_max. lia.
Qed.

Lemma pow_base_fits (n : Z) : 1 <= n <= 6 -> (4 * n + 2) ^ (2 * n) <= 2 ^ 63.
Proof.
  intros Hn.
  assert (n = 1 \/ n = 2 \/ n = 3 \/ n = 4 \/ n = 5 \/ n = 6) as Hc by lia.
  destruct Hc as [->|[->|[->|[->|[->| ->]]]]]; vm_compute; discriminate.
Qed.

Lemma valid_table_lookup (t : tm_table) (n s : Z) (sym : string) :
  valid_table t n -> 1 <= s <= n -> sym = "0"%string \/ sym = "1"%string ->
  exists tr, t !! (s, sym) = Some tr /\ valid_transition n tr.
Proof.
  intros [Hdom Hall] Hs Hsym.
  assert (Hin : (s, sym) ∈ dom t).
  { rewrite Hdom. apply elem_of_table_keys. done. }
  apply elem_of_dom in Hin as [tr Htr]. exists tr. split; [done|].
  by apply (Hall _ _ Htr).
Qed.

Lemma tm_to_int_valid (t : tm_table) (n : Z) :
  1 <= n <= 6 -> valid_table t n ->
  tm_to_int t n = Ok (enc_prefix (cell_code t n) (4 * n + 2) (Z.to_nat n))
  /\ (forall (s : nat) (sym : string), (1 <= s <= Z.to_nat n)%nat ->
        sym = "0"%string \/ sym = "1"%string ->
        exists tr, t !! (Z.of_nat s, sym) = Some tr /\ valid_transition n tr
                   /\ 0 <= cell_code t n (Z.of_nat s) sym < 4 * n + 2
                   /\ spec_decode_digit (cell_code t n (Z.of_nat s) sym) = tr).
Proof.
  intros Hn Hvalid.
  assert (Hcells : forall (s : nat) (sym : string), (1 <= s <= Z.to_nat n)%nat ->
            sym = "0"%string \/ sym = "1"%string ->
            exists tr, t !! (Z.of_nat s, sym) = Some tr /\ valid_transition n tr
                       /\ 0 <= cell_code t n (Z.of_nat s) sym < 4 * n + 2
                       /\ spec_decode_digit (cell_code t n (Z.of_nat s) sym) = tr).
  { intros s sym Hs Hsym.
    destruct (valid_table_lookup t n (Z.of_nat s) sym Hvalid ltac:(lia) Hsym) as (tr & Ht & Hv).
    exists tr. split; [done|]. split; [done|].
    unfold cell_code. rewrite Ht. apply encode_valid_transition; [lia|done]. }
  split; [|exact Hcells].
  unfold tm_to_int. rewrite as_int_ok by (unfold in_int, int_min, int_max; lia).
  cbn [mbind result_bind]. unfold tm_to_int_c.
  rewrite wrap_int_id by (unfold in_int, int_min, int_max; lia).
  rewrite <- (Z2Nat.id n) at 1 by lia.
  apply (tm_to_int_loop t n (4 * n + 2) (Z.to_nat n)); [lia| | |lia].
  - rewrite Z2Nat.id by lia. by apply pow_base_fits.
  - intros s sym Hs Hsym.
    destruct (Hcells s sym Hs Hsym) as (tr & Ht & Hv & Hc & _).
    exists tr. split; [done|].
    destruct tr as [[ns w] mv]. destruct Hv as [_ Hv]. simpl in *.
    unfold in_int, int_min, int_max. repeat split; lia.
Qed.

(** ** The codec: round trip *)

Lemma int_to_tm_table_valid (n k : Z) (t : tm_table) :
  1 <= n <= 10 ->
  (forall key, t !! key = decoded_lookup n k n key) ->
  valid_table t n.
Proof.
  intros Hn HT. split.
  - apply set_eq. intros key. rewrite elem_of_dom, HT. apply decoded_lookup_is_Some.
  - intros key tr Htr. rewrite HT in Htr. unfold decoded_lookup in Htr.
    destruct (decide (1 <= key.1 <= n)); [|done].
    destruct (decide (key.2 = "0"%string)).
    { injection Htr as <-. apply encode_decoded_digit; [lia|].
      apply big_endian_digit_bound. lia. }
    destruct (decide (key.2 = "1"%string)); [|done].
    injection Htr as <-. apply encode_decoded_digit; [lia|].
    apply big_endian_digit_bound. lia.
Qed.

Lemma decode_encode (n : Z) (t : tm_table) :
  1 <= n <= 6 -> valid_table t n ->
  exists k, tm_to_int t n = Ok k /\ 0 <= k < (4 * n + 2) ^ (2 * n)
            /\ int_to_tm_table k n = Ok t.
Proof.
  intros Hn Hvalid.
  destruct (tm_to_int_valid t n Hn Hvalid) as [Henc Hcells].
  set (b := 4 * n + 2) in *. set (N := Z.to_nat n) in *.
  assert (HN : Z.of_nat N = n) by (subst N; lia).
  assert (Hcode : forall (s : nat) (sym : string), (1 <= s <= N)%nat ->
            sym = "0"%string \/ sym = "1"%string ->
            0 <= cell_code t n (Z.of_nat s) sym < b).
  { intros s sym Hs Hsym. destruct (Hcells s sym Hs Hsym) as (? & _ & _ & H & _). done. }
  pose proof (enc_prefix_bound (cell_code t n) b ltac:(lia) N Hcode N ltac:(lia)) as Hbound.
  rewrite HN in Hbound.
  set (k := enc_prefix (cell_code t n) b N) in *.
  exists k. split; [done|]. split; [done|].
  pose proof (pow_base_fits n Hn) as Hfit. fold b in Hfit.
  destruct (int_to_tm_table_lookup n k ltac:(lia)) as (T & Hdec & HT).
  { unfold in_long, long_min, long_max. lia. }
  rewrite Hdec. f_equal. apply map_eq. intros [s sym]. rewrite HT.
  unfold decoded_lookup. simpl.
  destruct (decide (1 <= s <= n)) as [Hs|Hs].
  - destruct (enc_prefix_digits (cell_code t n) b ltac:(lia) N Hcode (Z.to_nat s) ltac:(lia))
      as [Hd0 Hd1].
    rewrite HN, Z2Nat.id in Hd0, Hd1 by lia. fold k in Hd0, Hd1.
    destruct (decide (sym = "0"%string)) as [->|Hne0].
    { fold b. rewrite Hd0.
      destruct (Hcells (Z.to_nat s) "0"%string ltac:(lia) ltac:(by left))
        as (tr & Ht & _ & _ & Hdec0).
      rewrite Z2Nat.id in Ht, Hdec0 by lia. by rewrite Hdec0, Ht. }
    destruct (decide (sym = "1"%string)) as [->|Hne1].
    { fold b. rewrite Hd1.
      destruct (Hcells (Z.to_nat s) "1"%string ltac:(lia) ltac:(by right))
        as (tr & Ht & _ & _ & Hdec1).
      rewrite Z2Nat.id in Ht, Hdec1 by lia. by rewrite Hdec1, Ht. }
    symmetry. apply not_elem_of_dom. destruct Hvalid as [-> _].
    rewrite elem_of_table_keys. simpl. intros [_ [?|?]]; done.
  - symmetry. apply not_elem_of_dom. destruct Hvalid as [-> _].
    rewrite elem_of_table_keys. simpl. intros [? _]; done.
Qed.

Lemma encode_decode (n k : Z) :
  1 <= n <= 6 -> 0 <= k < (4 * n + 2) ^ (2 * n) ->
  exists t, int_to_tm_table k n = Ok t /\ valid_table t n /\ tm_to_int t n = Ok k.
Proof.
  intros Hn Hk.
  pose proof (pow_base_fits n Hn) as Hfit.
  destruct (int_to_tm_table_lookup n k ltac:(lia)) as (T & Hdec & HT).
  { unfold in_long, long_min, long_max. lia. }
  pose proof (int_to_tm_table_valid n k T ltac:(lia) HT) as Hvalid.
  exists T. split; [done|]. split; [done|].
  destruct (tm_to_int_valid T n Hn Hvalid) as [-> _]. f_equal.
  set (b := 4 * n + 2) in *. set (N := Z.to_nat n).
  assert (HN : Z.of_nat N = n) by (subst N; lia).
  rewrite (enc_prefix_of_digits (cell_code T n) b ltac:(lia) N k N); [| |
    |lia].
  - rewrite Z.sub_diag. simpl. apply Z.div_1_r.
  - by rewrite HN.
  - intros s Hs. rewrite HN. unfold cell_code. rewrite !HT. unfold decoded_lookup. simpl.
    destruct (decide (1 <= Z.of_nat s <= n)); [|lia]. simpl. fold b.
    split; apply encode_decoded_digit; try lia; apply big_endian_digit_bound; lia.
Qed.

(** C1, as stated, fails for seven states: [30^14] does not fit a C
    [long].  The valid table all of whose cells are [(7, '1', Right)] is not
    what its code decodes to, and the code [2^63 < 30^14] is turned down
    when it is converted to the [long] parameter. *)
Lemma codec_round_trip_counterexample :
  valid_table (uniform_table 7 (7, "1"%string, 1)) 7
  /\ (k ← tm_to_int (uniform_table 7 (7, "1"%string, 1)) 7; int_to_tm_table k 7)
     <> Ok (uniform_table 7 (7, "1"%string, 1))
  /\ 0 <= 2 ^ 63 < (4 * 7 + 2) ^ (2 * 7)
  /\ int_to_tm_table (2 ^ 63) 7 = Raise OverflowError.
Proof.
  split; [|split; [|split]].
  - vm_compute_decide.
  - intros H.
    apply (f_equal (fun r => match r with
                             | Ok m => m !! (1, "1"%string)
                             | Raise _ => None
                             end)) in H.
    vm_compute in H. discriminate H.
  - vm_compute. split; [discriminate | reflexivity].
  - reflexivity.
Qed.

(** C1, amended.  For [1 <= n <= 6], the state counts whose codes fit a C
    [long]: encoding a valid table for [n] states yields a code in
    [[0, (4n+2)^(2n))] that decodes to the same table, and decoding a code
    in that interval yields a valid table that encodes to the same code. *)
Theorem codec_round_trip (n : Z) :
  1 <= n <= 6 ->
  (forall t : tm_table, valid_table t n ->
     exists k, tm_to_int t n = Ok k /\ 0 <= k < (4 * n + 2) ^ (2 * n)
               /\ int_to_tm_table k n = Ok t)
  /\ (forall k : Z, 0 <= k < (4 * n + 2) ^ (2 * n) ->
        exists t, int_to_tm_table k n = Ok t /\ valid_table t n
                  /\ tm_to_int t n = Ok k).
Proof.
  intros Hn. split.
  - intros t Hv. by apply decode_encode.
  - intros k Hk. by apply encode_decode.
Qed.

Lemma codec_round_trip_witness :
  (exists k, tm_to_int demo_table 2 = Ok k /\ int_to_tm_table k 2 = Ok demo_table)
  /\ (exists t, int_to_tm_table 31 1 = Ok t /\ tm_to_int t 1 = Ok 31).
Proof.
  split.
  - destruct (proj1 (codec_round_trip 2 ltac:(lia)) demo_table) as (k & H1 & _ & H2).
    + vm_compute_decide.
    + exists k. split; [exact H1 | exact H2].
  - destruct (proj2 (codec_round_trip 1 ltac:(lia)) 31) as (t & H1 & _ & H2).
    + vm_compute. split; [discriminate | reflexivity].
    + exists t. split; [exact H1 | exact H2].
Defined.

(** ** The decoder outside the code interval *)

Lemma big_endian_digit_mod (b len k pos : Z) :
  0 < b -> 0 <= pos < len ->
  big_endian_digit b len (k mod b ^ len) pos = big_endian_digit b len k pos.
Proof.
  intros Hb Hpos. unfold big_endian_digit.
  set (i := len - 1 - pos).
  assert (Hi : 0 <= i) by lia.
  replace len with (i + (1 + (len - 1 - i))) at 1 by lia.
  rewrite !Z.pow_add_r, Z.pow_1_r by lia.
  assert (Hpi : 0 < b ^ i) by (apply Z.pow_pos_nonneg; lia).
  assert (Hpr : 0 < b ^ (len - 1 - i)) by (apply Z.pow_pos_nonneg; lia).
  rewrite Z.rem_mul_r by lia.
  rewrite (Z.mul_comm (b ^ i)), Z.div_add by lia.
  rewrite (Z.div_small (k mod b ^ i)) by (apply Z.mod_pos_bound; lia).
  rewrite Z.add_0_l, Z.rem_mul_r by lia.
  rewrite (Z.mul_comm b), Z.mod_add by lia.
  apply Z.mod_mod. lia.
Qed.

Lemma decoded_lookup_mod (n k : Z) (key : Z * string) :
  1 <= n ->
  decoded_lookup n (k mod (4 * n + 2) ^ (2 * n)) n key = decoded_lookup n k n key.
Proof.
  intros Hn. unfold decoded_lookup.
  destruct (decide (1 <= key.1 <= n)); [|done].
  rewrite !big_endian_digit_mod by lia. done.
Qed.

Lemma decoded_lookup_congruent (n k k' : Z) (key : Z * string) :
  1 <= n ->
  k' mod (4 * n + 2) ^ (2 * n) = k mod (4 * n + 2) ^ (2 * n) ->
  decoded_lookup n k' n key = decoded_lookup n k n key.
Proof.
  intros Hn Hmod.
  rewrite <- (decoded_lookup_mod n k), <- (decoded_lookup_mod n k') by done.
  by rewrite Hmod.
Qed.

(** C3, as stated, fails: there is no range check.  For one state the
    base is 6 and the codes are [0..35]; the decoder accepts 36 and returns
    a table. *)
Lemma int_to_tm_table_range_counterexample :
  36 >= (4 * 1 + 2) ^ (2 * 1)
  /\ int_to_tm_table 36 1 = Ok (uniform_table 1 (0, "0"%string, 0)).
Proof.
  split; [vm_compute; discriminate|].
  destruct (int_to_tm_table_lookup 1 36) as (T & -> & HT); [lia| |].
  { vm_compute. split; discriminate. }
  f_equal. apply map_eq. intros [s sym]. rewrite HT.
  unfold decoded_lookup, uniform_table. simpl.
  destruct (decide (1 <= s <= 1)) as [Hs|Hs].
  - assert (s = 1) as -> by lia.
    destruct (decide (sym = "0"%string)) as [->|]; [reflexivity|].
    destruct (decide (sym = "1"%string)) as [->|]; [reflexivity|].
    symmetry. rewrite lookup_insert_ne by congruence.
    rewrite lookup_insert_ne by congruence. apply lookup_empty.
  - symmetry. rewrite lookup_insert_ne by (intros [= ? ?]; lia).
    rewrite lookup_insert_ne by (intros [= ? ?]; lia). apply lookup_empty.
Qed.

(** C3, amended.  The decoder compares its argument with nothing: for a
    state count within the digit buffer ([1..10]) every integer that fits
    the C [long] parameter is decoded to a table, the same table as any
    other such integer congruent to it modulo [(4n+2)^(2n)], so a code at or
    above that bound decodes like its remainder.  The only integers turned
    down are those that do not fit a C [long], with [OverflowError]. *)
Theorem int_to_tm_table_no_range_check (n k : Z) :
  1 <= n <= 10 ->
  (in_long k ->
   exists t, int_to_tm_table k n = Ok t
             /\ forall k', in_long k' ->
                  k' mod (4 * n + 2) ^ (2 * n) = k mod (4 * n + 2) ^ (2 * n) ->
                  int_to_tm_table k' n = Ok t)
  /\ (~ in_long k -> int_to_tm_table k n = Raise OverflowError).
Proof.
  intros Hn. split.
  - intros Hk. destruct (int_to_tm_table_lookup n k Hn Hk) as (T & Hrun & HT).
    exists T. split; [done|]. intros k' Hk' Hmod.
    destruct (int_to_tm_table_lookup n k' Hn Hk') as (T' & -> & HT').
    f_equal. apply map_eq. intros key. rewrite HT, HT'.
    apply decoded_lookup_congruent; [lia|done].
  - intros Hk. unfold int_to_tm_table. by rewrite (as_long_raise _ Hk).
Qed.

Lemma int_to_tm_table_no_range_check_witness :
  (exists t, int_to_tm_table 36 1 = Ok t /\ int_to_tm_table 0 1 = Ok t)
  /\ int_to_tm_table (2 ^ 63) 1 = Raise OverflowError.
Proof.
  destruct (int_to_tm_table_no_range_check 1 36 ltac:(lia)) as [H _].
  destruct (int_to_tm_table_no_range_check 1 (2 ^ 63) ltac:(lia)) as [_ H'].
  split.
  - destruct H as (t & H1 & H2).
    + vm_compute. split; discriminate.
    + exists t. split; [exact H1|]. apply H2.
      * vm_compute. split; discriminate.
      * reflexivity.
  - apply H'. vm_compute. intros [_ Hle]. apply Hle. reflexivity.
Defined.

(** ** The digit buffer *)

Lemma wrap_int_high (z : Z) : 2 ^ 31 <= z < 2 ^ 32 -> wrap_int z = z - 2 ^ 32.
Proof.
  intros Hz. unfold wrap_int.
  change (2 ^ 31) with 2147483648 in *. change (2 ^ 32) with 4294967296 in *.
  Z.div_mod_to_equations. lia.
Qed.

Lemma wrap_int_pred_low (z : Z) :
  - 2 ^ 31 <= z < 0 -> ~ (0 <= wrap_int (z - 1) < 20).
Proof.
  intros Hz. unfold wrap_int.
  change (2 ^ 31) with 2147483648 in *. change (2 ^ 32) with 4294967296 in *.
  Z.div_mod_to_equations. lia.
Qed.

Lemma countdown_range (len : nat) (idx : Z) :
  in_int idx -> int_min <= idx - Z.of_nat len ->
  Forall (fun e => idx - Z.of_nat len < e <= idx) (countdown len idx).
Proof.
  revert idx. induction len as [|len IH]; intros idx Hidx Hlow; simpl; [constructor|].
  constructor; [lia|].
  assert (Hin : in_int (idx - 1)) by (unfold in_int, int_max in *; lia).
  rewrite (wrap_int_id _ Hin).
  eapply Forall_impl; [apply IH; [done|lia]|].
  simpl. intros e He. lia.
Qed.

Lemma extract_digits_ok (base k : Z) (m : nat) (d : list (option Z)) :
  (m <= 20)%nat ->
  exists st, for_each (seqZ 0 (Z.of_nat m)) (extract_digit base) (d, k) = Ok st.
Proof.
  intros Hm. induction m as [|m IH]; [by eexists|].
  destruct IH as ([d1 r1] & Hrun); [lia|].
  rewrite seqZ_S, for_each_app, Hrun. cbn [mbind result_bind for_each].
  unfold extract_digit, digits_set, DIGITS_LEN.
  destruct (decide (0 <= 0 + Z.of_nat m < 20)) as [_|]; [|lia].
  by eexists.
Qed.

Lemma extract_digits_overrun (base k : Z) (total : Z) :
  20 < total ->
  for_each (seqZ 0 total) (extract_digit base) (digits_fresh, k)
  = Raise UndefinedBehaviour.
Proof.
  intros Ht. replace total with (Z.of_nat 20 + (total - 20)) by lia.
  rewrite seqZ_app by lia. rewrite for_each_app.
  destruct (extract_digits_ok base k 20 digits_fresh) as ([d1 r1] & ->); [lia|].
  cbn [mbind result_bind]. rewrite seqZ_cons by lia. cbn [for_each].
  unfold extract_digit, digits_set, DIGITS_LEN.
  destruct (decide (0 <= 0 + Z.of_nat 20 < 20)) as [?|_]; [lia|]. done.
Qed.

Lemma decode_cell_overrun (digits : list (option Z)) (state sym_idx : Z)
    (T : tm_table) (idx : Z) :
  ~ (0 <= idx < 20) ->
  decode_cell digits state sym_idx (T, idx) = Raise UndefinedBehaviour.
Proof.
  intros Hidx. unfold decode_cell, digits_get, DIGITS_LEN.
  destruct (decide (0 <= idx < 20)); done.
Qed.

Lemma int_to_tm_table_overrun (n k : Z) :
  11 <= n -> in_int n -> in_long k ->
  int_to_tm_table k n = Raise UndefinedBehaviour.
Proof.
  intros Hn Hin Hk. unfold int_to_tm_table.
  rewrite (as_long_ok _ Hk). cbn [mbind result_bind].
  rewrite (as_int_ok _ Hin). cbn [mbind result_bind].
  unfold int_to_tm_table_c.
  unfold in_int, int_min, int_max in Hin.
  destruct (decide (2 * n < 2 ^ 31)) as [Hlo|Hhi].
  - rewrite (wrap_int_id (2 * n)) by (unfold in_int, int_min, int_max; lia).
    rewrite extract_digits_overrun by lia. done.
  - rewrite (wrap_int_high (2 * n)) by lia.
    replace (seqZ 0 (2 * n - 2 ^ 32)) with (@nil Z).
    2:{ unfold seqZ. replace (Z.to_nat (2 * n - 2 ^ 32)) with 0%nat by lia. done. }
    cbn [for_each mbind result_bind].
    rewrite (seqZ_cons 1 n) by lia. cbn [for_each].
    rewrite seqZ_symbols. cbn [for_each].
    rewrite decode_cell_overrun; [done|].
    apply wrap_int_pred_low. lia.
Qed.


Lemma buffer_indices_in_range (n : Z) :
  0 <= n -> in_int n ->
  Forall (fun i => 0 <= i < DIGITS_LEN) (digit_loop_indices n ++ table_loop_indices n)
  <-> n <= 10.
Proof.
  intros Hn Hin. unfold DIGITS_LEN, digit_loop_indices, table_loop_indices.
  unfold in_int, int_min, int_max in Hin.
  rewrite Forall_app. split.
  - intros [H1 H2]. destruct (decide (n <= 10)) as [|Hbig]; [done|exfalso].
    destruct (decide (2 * n < 2 ^ 31)) as [Hlo|Hhi].
    + rewrite (wrap_int_id (2 * n)) in H1 by (unfold in_int, int_min, int_max; lia).
      rewrite Forall_forall in H1.
      specialize (H1 20). rewrite elem_of_seqZ in H1. lia.
    + rewrite (wrap_int_high (2 * n)) in H2 by lia.
      replace (2 * Z.to_nat n)%nat with (S (2 * Z.to_nat n - 1)) in H2 by lia.
      simpl in H2. apply Forall_cons in H2 as [Hbad _].
      revert Hbad. apply wrap_int_pred_low. lia.
  - intros Hsmall.
    rewrite (wrap_int_id (2 * n)) by (unfold in_int, int_min, int_max; lia).
    rewrite (wrap_int_id (2 * n - 1)) by (unfold in_int, int_min, int_max; lia).
    split.
    + rewrite Forall_forall. intros i Hi. apply elem_of_seqZ in Hi. lia.
    + eapply Forall_impl.
      * apply countdown_range; unfold in_int, int_min, int_max; lia.
      * simpl. intros e He. lia.
Qed.

(** C10.  For a state count [n_states >= 0] held in a C [int], every index
    the two loops of the decoder use on the twenty-cell digit buffer lies
    within [0..19] exactly when [n_states <= 10]; the decoder returns a
    table exactly then, and for [n_states >= 11] it runs past the buffer:
    the digit-extraction loop reaches index 20 (as long as [2 * n_states]
    itself fits a C [int]). *)
Theorem digit_buffer_bounds (n k : Z) :
  0 <= n -> in_int n -> in_long k ->
  (Forall (fun i => 0 <= i < DIGITS_LEN) (digit_loop_indices n ++ table_loop_indices n)
   <-> n <= 10)
  /\ (is_Ok (int_to_tm_table k n) <-> n <= 10)
  /\ (int_to_tm_table k n = Raise UndefinedBehaviour <-> 11 <= n)
  /\ (11 <= n -> 2 * n <= int_max -> DIGITS_LEN ∈ digit_loop_indices n).
Proof.
  intros Hn Hin Hk.
  assert (Hok : n <= 10 -> is_Ok (int_to_tm_table k n)).
  { intros Hsmall. destruct (decide (n = 0)) as [->|Hne].
    - exists ∅. by apply int_to_tm_table_zero.
    - destruct (int_to_tm_table_lookup n k ltac:(lia) Hk) as (T & HT & _).
      by exists T. }
  split; [by apply buffer_indices_in_range|]. split; [split|split; [split|]].
  - intros [t Ht]. destruct (decide (n <= 10)) as [|Hbig]; [done|].
    rewrite int_to_tm_table_overrun in Ht by (done || lia). discriminate Ht.
  - exact Hok.
  - intros Hub. destruct (decide (11 <= n)) as [|Hsmall]; [done|].
    destruct (Hok ltac:(lia)) as [t Ht]. rewrite Ht in Hub. discriminate Hub.
  - intros Hbig. by apply int_to_tm_table_overrun.
  - intros Hbig Hfit. unfold digit_loop_indices, DIGITS_LEN.
    rewrite wrap_int_id by (unfold in_int, int_min, int_max in *; lia).
    apply elem_of_seqZ. lia.
Qed.

Lemma digit_buffer_bounds_witness :
  int_to_tm_table 5 11 = Raise UndefinedBehaviour
  /\ is_Ok (int_to_tm_table 5 10)
  /\ DIGITS_LEN ∈ digit_loop_indices 11.
Proof.
  assert (H11 : in_int 11) by (vm_compute; split; discriminate).
  assert (H10 : in_int 10) by (vm_compute; split; discriminate).
  assert (H5 : in_long 5) by (vm_compute; split; discriminate).
  split; [|split].
  - apply (digit_buffer_bounds 11 5 ltac:(lia) H11 H5). lia.
  - apply (digit_buffer_bounds 10 5 ltac:(lia) H10 H5). lia.
  - apply (digit_buffer_bounds 11 5 ltac:(lia) H11 H5); [lia|].
    vm_compute. discriminate.
Defined.

(** ** Steps as a relation on the attributes *)

Lemma in_int_dec (z : Z) : in_int z \/ ~ in_int z.
Proof. unfold in_int. lia. Qed.

Lemma as_int_raise z : ~ in_int z -> as_int z = Raise OverflowError.
Proof.
  unfold in_int, as_int, fits_int. intros H.
  destruct (int_min <=? z) eqn:E1; [|done].
  destruct (z <=? int_max) eqn:E2; [|done].
  apply Z.leb_le in E1, E2. lia.
Qed.

Lemma cython_step_rel (m : TuringMachine) (v : Z) (m' : TuringMachine) :
  cython_step m = Ok (v, m') -> step_rel m m'.
Proof.
  intros Hstep.
  assert (Hs : in_int (current_state m)).
  { destruct (in_int_dec (current_state m)) as [|Hn]; [done|].
    unfold cython_step in Hstep. by rewrite (as_int_raise _ Hn) in Hstep. }
  assert (Hh : in_int (head_position m)).
  { destruct (in_int_dec (head_position m)) as [|Hn]; [done|].
    unfold cython_step in Hstep. rewrite (as_int_ok _ Hs) in Hstep.
    by rewrite (as_int_raise _ Hn) in Hstep. }
  destruct (cython_step_cases m Hs Hh)
    as [[Hq Hr]|[(Hq & Hn & Hr)|(ns & w & mv & Hq & Ht & Hr)]];
    rewrite Hr in Hstep; injection Hstep as _ <-;
    unfold step_rel; simpl; repeat (split; [done|]).
  - left. split_and!; auto.
  - right. left. split_and!; try done.
    intros p. unfold tape_content. simpl. apply tape_getitem_lookup.
  - right. right. split_and!; try done.
    exists ns, w, mv. split_and!; try done.
    + unfold tape_content. simpl. by rewrite lookup_insert_eq.
    + intros p Hp. unfold tape_content. simpl.
      rewrite lookup_insert_ne by done. apply tape_getitem_lookup.
Qed.

Lemma step_obj_rel (m : TuringMachine) : step_rel m (step_obj m).
Proof.
  unfold step_obj. destruct (cython_step m) as [[v m']|e] eqn:E.
  - by apply (cython_step_rel m v).
  - unfold step_rel. repeat (split; [done|]). left.
    split; [|done].
    destruct (in_int_dec (current_state m)) as [Hs|]; [|by left].
    destruct (in_int_dec (head_position m)) as [Hh|]; [|right; by left].
    destruct (cython_step_cases m Hs Hh)
      as [[_ Hr]|[(_ & _ & Hr)|(? & ? & ? & _ & _ & Hr)]]; congruence.
Qed.

Lemma steps_S_r (k : nat) (m : TuringMachine) :
  steps (S k) m = step_obj (steps k m).
Proof.
  revert m. induction k as [|k IH]; intros m; [done|].
  change (steps (S (S k)) m) with (steps (S k) (step_obj m)).
  rewrite IH. done.
Qed.

Lemma same_config_refl (m : TuringMachine) : same_config m m.
Proof. by split_and!. Qed.

Lemma same_config_sym (m1 m2 : TuringMachine) :
  same_config m1 m2 -> same_config m2 m1.
Proof. intros (? & ? & ? & ? & ?). by split_and!. Qed.

Lemma same_config_trans (m1 m2 m3 : TuringMachine) :
  same_config m1 m2 -> same_config m2 m3 -> same_config m1 m3.
Proof.
  intros (Ha1 & Ha2 & Ha3 & Ha4 & Ha5) (Hb1 & Hb2 & Hb3 & Hb4 & Hb5).
  split_and!; try congruence; intros p; by rewrite Ha5.
Qed.

Lemma step_rel_same_config (m1 m1' m2 m2' : TuringMachine) :
  step_rel m1 m1' -> step_rel m2 m2' -> same_config m1 m2 -> same_config m1' m2'.
Proof.
  intros (Ht1 & Hb1 & _ & _ & _ & H1) (Ht2 & Hb2 & _ & _ & _ & H2)
         (Ht & Hb & Hq & Hh & Hc).
  unfold same_config. rewrite Ht1, Ht2, Hb1, Hb2.
  split; [done|]. split; [done|].
  rewrite <- Ht, <- Hq, <- Hh, <- (Hc (head_position m1)) in H2.
  destruct H1 as [(Hg1 & Hq1 & Hh1 & _ & _ & Hc1)
                 |[(Hs1 & Hi1 & Hn1 & Hl1 & Hq1 & Hh1 & _ & _ & Hc1)
                  |(Hs1 & Hi1 & Hn1 & ns1 & w1 & mv1 & Hl1 & Hq1 & Hh1 & _ & _ & Hw1 & Hc1)]];
  destruct H2 as [(Hg2 & Hq2 & Hh2 & _ & _ & Hc2)
                 |[(Hs2 & Hi2 & Hn2 & Hl2 & Hq2 & Hh2 & _ & _ & Hc2)
                  |(Hs2 & Hi2 & Hn2 & ns2 & w2 & mv2 & Hl2 & Hq2 & Hh2 & _ & _ & Hw2 & Hc2)]];
  try (exfalso; tauto); try congruence.
  - split_and!; try congruence; intros p; by rewrite Hc1, Hc2.
  - split_and!; try congruence; intros p; by rewrite Hc1, Hc2.
  - rewrite Hl1 in Hl2. injection Hl2 as <- <- <-.
    split_and!; try congruence.
    intros p. destruct (decide (p = head_position m1)) as [->|Hp].
    + rewrite Hw1. rewrite Hh in Hw2 |- *. by rewrite Hw2.
    + rewrite Hc1 by done. rewrite Hc2 by congruence. done.
Qed.

Lemma step_obj_same_config (m1 m2 : TuringMachine) :
  same_config m1 m2 -> same_config (step_obj m1) (step_obj m2).
Proof. apply step_rel_same_config; apply step_obj_rel. Qed.

Lemma steps_same_config (k : nat) (m1 m2 : TuringMachine) :
  same_config m1 m2 -> same_config (steps k m1) (steps k m2).
Proof.
  revert m1 m2. induction k as [|k IH]; intros m1 m2 H; [done|].
  simpl. apply IH. by apply step_obj_same_config.
Qed.

Lemma never_halts_same_config (m1 m2 : TuringMachine) :
  same_config m1 m2 -> never_halts m1 -> never_halts m2.
Proof.
  intros H Hn k. destruct (steps_same_config k m1 m2 H) as (_ & _ & Hq & _).
  rewrite <- Hq. apply Hn.
Qed.

(** A configuration that comes back after two steps, both taken from an
    active state, never halts. *)
Lemma period_two_never_halts (a b : TuringMachine) :
  current_state a <> HALT_STATE -> current_state b <> HALT_STATE ->
  same_config (step_obj a) b -> same_config (step_obj b) a ->
  never_halts a.
Proof.
  intros Ha Hb Hab Hba k.
  assert (H : same_config (steps k a) a \/ same_config (steps k a) b).
  { induction k as [|k IH]; [left; apply same_config_refl|].
    rewrite steps_S_r. destruct IH as [IH|IH].
    - right. eapply same_config_trans; [|exact Hab]. by apply step_obj_same_config.
    - left. eapply same_config_trans; [|exact Hba]. by apply step_obj_same_config. }
  destruct H as [(_ & _ & Hq & _)|(_ & _ & Hq & _)]; rewrite Hq; done.
Qed.

(** ** One query of each filter, for the soundness proof *)

Lemma check_escapee_spec (m : TuringMachine) (b : bool) (m2 : TuringMachine) :
  check_escapee m = Ok (b, m2) ->
  (transition_table m2 = transition_table m
   /\ blank_symbol m2 = blank_symbol m
   /\ num_states m2 = num_states m
   /\ current_state m2 = current_state m
   /\ head_position m2 = head_position m
   /\ min_visited m2 = min_visited m
   /\ max_visited m2 = max_visited m
   /\ _cycle_history m2 = _cycle_history m
   /\ forall p, tape_content m2 p = tape_content m p)
  /\ match _escapee_seen_positions m with
     | None =>
         b = false
         /\ _escapee_seen_positions m2 = Some {[ head_position m ]}
         /\ _escapee_blank_run_count m2 = Some 0
     | Some seen =>
         if bool_decide (tape_content m (head_position m) = blank_symbol m)
            && bool_decide (head_position m ∉ seen)
         then exists r,
                _escapee_blank_run_count m = Some r
                /\ _escapee_seen_positions m2 = Some (seen ∪ {[ head_position m ]})
                /\ _escapee_blank_run_count m2 = Some (r + 1)
                /\ b = bool_decide (r + 1 > num_states m)
         else _escapee_seen_positions m2 = Some seen
              /\ _escapee_blank_run_count m2 = Some 0
              /\ b = bool_decide (0 > num_states m)
     end.
Proof.
  unfold check_escapee. destruct (_escapee_seen_positions m) as [seen|] eqn:Hseen.
  - destruct (as_int (head_position m)) as [h|] eqn:Eh; [|done].
    apply as_int_inv in Eh as [-> _]. cbn [mbind result_bind].
    pose proof (tape_getitem_content m (head_position m)) as Hc.
    pose proof (tape_getitem_lookup (blank_symbol m) (tape m) (head_position m)) as Hl.
    destruct (tape_getitem (blank_symbol m) (tape m) (head_position m)) as [s tp].
    simpl in Hc, Hl. subst s. cbn [blank_symbol set_tape].
    destruct (bool_decide (tape_content m (head_position m) = blank_symbol m)
              && bool_decide (head_position m ∉ seen)) eqn:E.
    + cbn [_escapee_blank_run_count set_tape].
      destruct (_escapee_blank_run_count m) as [r|] eqn:Hrun; [|done].
      cbn [mbind result_bind getattr set_escapee_blank_run_count
           set_escapee_seen_positions _escapee_blank_run_count num_states].
      intros Hres. change (num_states (set_tape tp m)) with (num_states m) in Hres.
      assert (Hb : b = bool_decide (r + 1 > num_states m)).
      { destruct (decide (r + 1 > num_states m)) as [Hgt|Hgt]; injection Hres as <- _;
          symmetry; [by apply bool_decide_eq_true | by apply bool_decide_eq_false]. }
      assert (Hm2 : m2 = set_escapee_seen_positions (seen ∪ {[ head_position m ]})
                           (set_escapee_blank_run_count (r + 1) (set_tape tp m))).
      { destruct (decide (r + 1 > num_states m)); by injection Hres as _ <-. }
      subst m2. simpl. split; [split_and!; done|]. exists r. done.
    + cbn [mbind result_bind getattr set_escapee_blank_run_count
           _escapee_blank_run_count num_states set_tape].
      intros Hres. change (num_states (set_tape tp m)) with (num_states m) in Hres.
      assert (Hb : b = bool_decide (0 > num_states m)).
      { destruct (decide (0 > num_states m)) as [Hgt|Hgt]; injection Hres as <- _;
          symmetry; [by apply bool_decide_eq_true | by apply bool_decide_eq_false]. }
      assert (Hm2 : m2 = set_escapee_blank_run_count 0 (set_tape tp m)).
      { destruct (decide (0 > num_states m)); by injection Hres as _ <-. }
      subst m2. simpl. split; [split_and!; done|]. done.
  - intros [= <- <-]. simpl. split; [split_and!; done|]. done.
Qed.

Lemma check_cycle_two_unfold (m : TuringMachine) :
  check_cycle_two m
  = (bool_decide (length (deque_append 3 (default [] (_cycle_history m)) (config_of m))
                  = 3%nat)
     && bool_decide (deque_append 3 (default [] (_cycle_history m)) (config_of m) !! 0%nat
                     = deque_append 3 (default [] (_cycle_history m)) (config_of m) !! 2%nat),
     set_cycle_history (deque_append 3 (default [] (_cycle_history m)) (config_of m)) m).
Proof.
  unfold check_cycle_two, config_of.
  by destruct (bool_decide _ && bool_decide _).
Qed.

Lemma cython_step_history (m : TuringMachine) (v : Z) (m' : TuringMachine) :
  cython_step m = Ok (v, m') -> _cycle_history m' = _cycle_history m.
Proof.
  intros Hstep. unfold cython_step in Hstep.
  destruct (as_int (current_state m)) as [q|]; [|done].
  destruct (as_int (head_position m)) as [h|]; [|done].
  cbn [mbind result_bind] in Hstep.
  destruct (decide (q = HALT_STATE)); [by injection Hstep as _ <-|].
  destruct (tape_getitem (blank_symbol m) (tape m) h) as [s tp].
  destruct (transition_table m !! (q, s)) as [[[ns w] mv]|].
  - simpl in Hstep. by destruct (decide (ns = HALT_STATE)); injection Hstep as _ <-.
  - by injection Hstep as _ <-.
Qed.

(** ** Soundness of the period-2 filter *)

Section CycleTwo.
Variable table : tm_table.
Variable blank : string.

Lemma chained_tail (c : config) (l : list config) :
  chained table blank (c :: l) -> chained table blank l.
Proof. destruct l; [done|]. by intros [_ ?]. Qed.

Lemma chained_suffix (l l' : list config) :
  l' `suffix_of` l -> chained table blank l -> chained table blank l'.
Proof.
  intros [k ->]. induction k as [|c k IH]; [done|].
  intros H. apply IH. by apply (chained_tail c).
Qed.

Lemma chained_snoc (l : list config) (c c' : config) :
  chained table blank (l ++ [c]) -> linked table blank c c' ->
  chained table blank ((l ++ [c]) ++ [c']).
Proof.
  intros Hl Hlink. induction l as [|x l IH]; [by split|].
  destruct l as [|y l].
  - destruct Hl as [Hxc _]. split; [done|]. by split.
  - destruct Hl as [Hxy Hrest]. split; [done|]. by apply IH.
Qed.

Lemma chained_last_equiv (l : list config) (c c' : config) :
  chained table blank (l ++ [c]) ->
  same_config (machine_of_config table blank c) (machine_of_config table blank c') ->
  chained table blank (l ++ [c']).
Proof.
  intros Hl Heq. induction l as [|x l IH]; [done|].
  destruct l as [|y l].
  - destruct Hl as [[Hx Hxc] _]. split; [|done]. split; [done|].
    by eapply same_config_trans.
  - destruct Hl as [Hxy Hrest]. split; [done|]. by apply IH.
Qed.

Lemma machine_of_config_of (m : TuringMachine) :
  transition_table m = table -> blank_symbol m = blank ->
  same_config (machine_of_config table blank (config_of m)) m.
Proof. intros Ht Hb. unfold same_config, tape_content. simpl. by rewrite Ht, Hb. Qed.

Variable n : Z.
Variable use_escapee : bool.

Lemma reaches_cycle_inv (st : stage) (m : TuringMachine) :
  reaches table n blank use_escapee true st m -> cycle_inv table blank st m.
Proof.
  induction 1 as [|m v m' Hr IH Hq Hstep|m m' c He Hr IH Hesc
                  |m m' e _ Hr IH Hcyc|m e c Hr IH He Hc].
  - by split_and!.
  - destruct IH as (Ht & Hb & Hch & Hlast).
    pose proof (cython_step_rel m v m' Hstep) as Hrel.
    destruct Hrel as (Ht' & Hb' & _).
    assert (Ht2 : transition_table m' = table) by congruence.
    assert (Hb2 : blank_symbol m' = blank) by congruence.
    split; [done|]. split; [done|].
    rewrite (cython_step_history m v m' Hstep).
    destruct (default [] (_cycle_history m)) as [|c0 l0] using rev_ind; [done|].
    rewrite last_snoc in Hlast. apply chained_snoc; [done|].
    split.
    + destruct Hlast as (_ & _ & Hs & _). simpl in Hs. congruence.
    + eapply same_config_trans; [apply step_obj_same_config, Hlast|].
      unfold step_obj. rewrite Hstep.
      apply same_config_sym. by apply machine_of_config_of.
  - destruct (check_escapee_spec m false m' Hesc)
      as [(Ht' & Hb' & _ & Hq' & Hh' & _ & _ & Hhist & Hc') _].
    destruct IH as (Ht & Hb & IH).
    assert (Hsame : same_config m m').
    { unfold same_config. split_and!; try congruence; intros p; by rewrite Hc'. }
    split; [congruence|]. split; [congruence|]. rewrite Hhist.
    destruct c.
    + destruct IH as [Hch Hlast]. split; [done|].
      destruct (last (default [] (_cycle_history m))); [|done].
      by eapply same_config_trans.
    + eapply chained_last_equiv; [exact IH|].
      eapply same_config_trans; [by apply machine_of_config_of|].
      eapply same_config_trans; [exact Hsame|].
      apply same_config_sym. apply machine_of_config_of; congruence.
  - destruct IH as (Ht & Hb & Hch).
    rewrite check_cycle_two_unfold in Hcyc. injection Hcyc as _ <-.
    split; [exact Ht|]. split; [exact Hb|]. simpl. split.
    + eapply chained_suffix; [apply deque_append_suffix | exact Hch].
    + rewrite deque_append_last by lia.
      eapply same_config_trans; [by apply machine_of_config_of|]. by split_and!.
  - subst c. exact IH.
Qed.

Lemma check_cycle_two_sound (e : bool) (m m' : TuringMachine) :
  reaches table n blank use_escapee true (AfterStep e false) m ->
  check_cycle_two m = (true, m') ->
  never_halts m.
Proof.
  intros Hr Hcyc. destruct (reaches_cycle_inv _ _ Hr) as (Ht & Hb & Hch).
  rewrite check_cycle_two_unfold in Hcyc. injection Hcyc as Hfire _.
  apply andb_true_iff in Hfire as [Hlen H02].
  apply bool_decide_eq_true in Hlen, H02.
  pose proof (deque_append_suffix 3 (default [] (_cycle_history m)) (config_of m)) as Hsuf.
  pose proof (deque_append_last 3 (default [] (_cycle_history m)) (config_of m)
                ltac:(lia)) as Hlast.
  pose proof (chained_suffix _ _ Hsuf Hch) as Hch3.
  destruct (deque_append 3 (default [] (_cycle_history m)) (config_of m))
    as [|a [|b [|c [|? ?]]]]; try done.
  simpl in H02, Hlast. injection H02 as ->. injection Hlast as ->.
  destruct Hch3 as [[Ha Hab] [[Hbq Hba] _]].
  apply (never_halts_same_config (machine_of_config table blank (config_of m)));
    [by apply machine_of_config_of|].
  apply (period_two_never_halts _ (machine_of_config table blank b)); done.
Qed.
End CycleTwo.

(** ** Machines that run away over blank cells *)

Lemma escaping_step_rel (m m' : TuringMachine) :
  escaping m -> step_rel m m' -> escaping m'.
Proof.
  intros (d & ss & Hd & Hin & Hclosed & Hahead) (Ht & Hb & _ & _ & _ & Hcase).
  pose proof (Hahead 0 ltac:(lia)) as Hhere. rewrite Z.add_0_r in Hhere.
  destruct (Hclosed _ Hin) as (Hact & b & w & Hlook & Hb_in).
  destruct Hcase as [(_ & Hq & Hh & _ & _ & Hc)
                    |[(_ & _ & _ & Hnone & _)
                     |(_ & _ & _ & ns & w' & mv & Hl & Hq & Hh & _ & _ & _ & Hc)]].
  - exists d, ss. rewrite Ht, Hb, Hq, Hh. split_and!; try done.
    intros i Hi. rewrite Hc. by apply Hahead.
  - rewrite Hhere, Hlook in Hnone. done.
  - rewrite Hhere, Hlook in Hl. injection Hl as <- <- <-.
    exists d, ss. rewrite Ht, Hb, Hq, Hh. split_and!; try done.
    intros i Hi. rewrite Hc by (destruct Hd as [-> | ->]; lia).
    replace (head_position m + d + i * d) with (head_position m + (i + 1) * d) by lia.
    apply Hahead. lia.
Qed.

Lemma escaping_never_halts (m : TuringMachine) : escaping m -> never_halts m.
Proof.
  intros Hesc k.
  assert (H : escaping (steps k m)).
  { induction k as [|k IH]; [done|]. rewrite steps_S_r.
    eapply escaping_step_rel; [exact IH | apply step_obj_rel]. }
  destruct H as (d & ss & _ & Hin & Hclosed & _).
  by destruct (Hclosed _ Hin) as [? _].
Qed.

Lemma escaping_same_config (m m' : TuringMachine) :
  same_config m m' -> escaping m -> escaping m'.
Proof.
  intros (Ht & Hb & Hq & Hh & Hc) (d & ss & Hd & Hin & Hclosed & Hahead).
  exists d, ss. rewrite <- Ht, <- Hb, <- Hq, <- Hh. split_and!; try done.
  intros i Hi. rewrite <- Hc. by apply Hahead.
Qed.

Section BlankChain.
Variable table : tm_table.
Variable blank : string.
Variable d : Z.

Lemma blank_chain_tail (a : Z) (l : list Z) :
  blank_chain table blank d (a :: l) -> blank_chain table blank d l.
Proof. destruct l; [done|]. by intros [_ ?]. Qed.

Lemma blank_chain_succ (l : list Z) (x : Z) :
  blank_chain table blank d l -> x ∈ tail l ->
  exists y w, table !! (x, blank) = Some (y, w, d) /\ y ∈ l.
Proof.
  induction l as [|a l IH]; simpl; [by intros _ ?%elem_of_nil|].
  intros Hch Hx. destruct l as [|b l]; [by apply elem_of_nil in Hx|].
  destruct Hch as [[w Hw] Hch].
  apply elem_of_cons in Hx as [->|Hx].
  - exists a, w. split; [done|]. apply elem_of_cons. by left.
  - destruct (IH Hch Hx) as (y & w' & Hy & Hin).
    exists y, w'. split; [done|]. apply elem_of_cons. by right.
Qed.

Lemma blank_chain_dup_head (a : Z) (l : list Z) :
  blank_chain table blank d (a :: l) -> ~ NoDup (a :: l) -> a ∈ l.
Proof.
  revert a. induction l as [|b l IH]; intros a Hch Hdup.
  - exfalso. apply Hdup. apply NoDup_singleton.
  - destruct (decide (a ∈ b :: l)) as [|Hnotin]; [done|exfalso].
    assert (Hdup' : ~ NoDup (b :: l)).
    { intros Hnd. apply Hdup. by apply NoDup_cons_2. }
    destruct Hch as [[w Hw] Hch].
    pose proof (IH b Hch Hdup') as Hb.
    destruct (blank_chain_succ (b :: l) b Hch Hb) as (y & w' & Hy & Hin).
    rewrite Hw in Hy. injection Hy as <- _. done.
Qed.
End BlankChain.

Lemma bounded_NoDup_length (n : Z) (l : list Z) :
  NoDup l -> (forall a, a ∈ l -> 1 <= a <= n) -> Z.of_nat (length l) <= Z.max 0 n.
Proof.
  intros Hnd Hall.
  assert (Hsub : l ⊆+ seqZ 1 n).
  { apply NoDup_submseteq; [done|]. intros a Ha. apply elem_of_seqZ.
    specialize (Hall a Ha). lia. }
  apply submseteq_length in Hsub. rewrite length_seqZ in Hsub. lia.
Qed.

Lemma run_ahead_escaping (m : TuringMachine) (seen : gset Z) (r : Z) :
  run_ahead m seen r -> 1 <= num_states m < r -> escaping m.
Proof.
  intros (d & ss & Hd & Hlen & Hhead & Hch & Hall & Hahead & _) Hr.
  destruct ss as [|a l]; [done|]. injection Hhead as ->.
  assert (Hdup : ~ NoDup (current_state m :: l)).
  { intros Hnd. pose proof (bounded_NoDup_length _ _ Hnd Hall). lia. }
  pose proof (blank_chain_dup_head _ _ _ _ _ Hch Hdup) as Hin.
  exists d, l. split_and!; try done.
  intros a Ha. split.
  - assert (1 <= a <= num_states m) by (apply Hall, elem_of_cons; by right).
    unfold HALT_STATE. lia.
  - destruct (blank_chain_succ _ _ _ _ a Hch Ha) as (y & w & Hy & Hy_in).
    exists y, w. split; [done|].
    apply elem_of_cons in Hy_in as [->|]; done.
Qed.

(** ** Soundness of the escapee filter *)

(** Membership of a cell in the set of recorded cells, grown by the head
    position or not. *)
Ltac seen_solver :=
  first
    [ assumption
    | apply elem_of_union_l; assumption
    | apply elem_of_union_r, elem_of_singleton_2; reflexivity
    | apply elem_of_singleton_2; reflexivity
    | apply elem_of_cons; left; reflexivity ].

Section Escapee.
Variable table : tm_table.
Variable n : Z.
Variable blank : string.
Hypothesis Hn : 1 <= n.
Hypothesis Hvalid : valid_table table n.

Lemma valid_table_entry (s : Z) (sym : string) (ns : Z) (w : string) (mv : Z) :
  table !! (s, sym) = Some (ns, w, mv) ->
  1 <= s <= n /\ ((ns = 0 /\ mv = 0) \/ (1 <= ns <= n /\ (mv = -1 \/ mv = 1))).
Proof.
  intros Hl. destruct Hvalid as [Hdom Hall]. split.
  - assert (Hin : (s, sym) ∈ dom table) by (apply elem_of_dom; eauto).
    rewrite Hdom in Hin. by apply elem_of_table_keys in Hin as [? _].
  - by destruct (Hall _ _ Hl) as [_ ?].
Qed.

Lemma step_summary (m0 m : TuringMachine) :
  transition_table m0 = table ->
  in_int (current_state m0) -> in_int (head_position m0) ->
  current_state m0 <> HALT_STATE ->
  min_visited m0 <= head_position m0 <= max_visited m0 ->
  step_rel m0 m ->
  exists mv,
    head_position m = head_position m0 + mv
    /\ (mv = -1 \/ mv = 0 \/ mv = 1)
    /\ min_visited m = Z.min (min_visited m0) (head_position m)
    /\ max_visited m = Z.max (max_visited m0) (head_position m)
    /\ (forall p, p <> head_position m0 -> tape_content m p = tape_content m0 p)
    /\ (mv <> 0 ->
        exists w,
          table !! (current_state m0, tape_content m0 (head_position m0))
          = Some (current_state m, w, mv)
          /\ 1 <= current_state m <= n /\ 1 <= current_state m0 <= n)
    /\ (current_state m <> HALT_STATE -> mv <> 0).
Proof.
  intros Ht Hs Hh Hq Hrange (_ & _ & _ & _ & _ & Hcase).
  destruct Hcase as [(Hbad & _)
                    |[(_ & _ & _ & _ & Hq' & Hh' & Hmin & Hmax & Hc)
                     |(_ & _ & _ & ns & w & mv & Hl & Hq' & Hh' & Hmin & Hmax & _ & Hc)]].
  - tauto.
  - exists 0. rewrite Hh', Hmin, Hmax. split_and!; try lia; auto.
  - rewrite Ht in Hl. destruct (valid_table_entry _ _ _ _ _ Hl) as [Hkey Htr].
    exists mv. rewrite Hh', Hmin, Hmax, Hq'. split_and!; try done.
    + destruct Htr as [[_ ->]|[_ [-> | ->]]]; auto.
    + intros Hmv. exists w. split; [done|]. split; [|done].
      destruct Htr as [[_ ->]|[? _]]; done.
    + intros Hns. unfold HALT_STATE in Hns. destruct Htr as [[? _]|[_ [-> | ->]]]; done.
Qed.

Lemma run_inv_transfer (m m2 : TuringMachine) (seen : gset Z) (r : Z) :
  transition_table m2 = transition_table m ->
  blank_symbol m2 = blank_symbol m ->
  num_states m2 = num_states m ->
  current_state m2 = current_state m ->
  head_position m2 = head_position m ->
  (forall p, tape_content m2 p = tape_content m p) ->
  run_inv m seen r -> run_inv m2 seen r.
Proof.
  intros Ht Hb Hns Hq Hh Hc [H0|[(H1 & Hin & Hbl)|(H2 & Hrun)]].
  - by left.
  - right. left. rewrite Hh, Hc, Hb. done.
  - right. right. split; [done|].
    destruct Hrun as [(d & ss & Hd & Hlen & Hhd & Hch & Hall & Hahead & Hprev & Hcur)
                     |(Hr & Hl & Hr' & Hcur & Hact)].
    + left. exists d, ss. rewrite Ht, Hb, Hns, Hq, Hh. split_and!; try done.
      intros i Hi. rewrite Hc. by apply Hahead.
    + right. unfold run_boxed. rewrite Hh, Hq. done.
Qed.

Lemma escapee_inv_intro (m m2 : TuringMachine) (seen : gset Z) (r : Z) :
  (transition_table m2 = transition_table m
   /\ blank_symbol m2 = blank_symbol m
   /\ num_states m2 = num_states m
   /\ current_state m2 = current_state m
   /\ head_position m2 = head_position m
   /\ min_visited m2 = min_visited m
   /\ max_visited m2 = max_visited m
   /\ _cycle_history m2 = _cycle_history m
   /\ forall p, tape_content m2 p = tape_content m p) ->
  _escapee_seen_positions m2 = Some seen ->
  _escapee_blank_run_count m2 = Some r ->
  transition_table m = table -> blank_symbol m = blank -> num_states m = n ->
  min_visited m <= 0 <= max_visited m ->
  min_visited m <= head_position m <= max_visited m ->
  (forall p, p < min_visited m \/ max_visited m < p -> tape_content m p = blank_symbol m) ->
  (forall p, min_visited m <= p <= max_visited m -> p <> 0 -> p ∈ seen) ->
  run_inv m seen r ->
  (n = 1 -> current_state m <> HALT_STATE -> escaping m) ->
  escapee_inv table n blank m2.
Proof.
  intros (Ht2 & Hb2 & Hn2 & Hq2 & Hh2 & Hmin2 & Hmax2 & _ & Hc2)
         Hseen Hrun Ht Hb Hns H0 Hh Hout Hcov Hinv Hesc.
  unfold escapee_inv. rewrite Hseen, Hrun, Ht2, Hb2, Hn2, Hq2, Hh2, Hmin2, Hmax2.
  split_and!; try done; try lia.
  - intros p Hp. rewrite Hc2. by apply Hout.
  - by apply (run_inv_transfer m).
  - intros H1 Hact. apply (escaping_same_config m); [|by apply Hesc].
    unfold same_config. by split_and!.
Qed.

(** The step and the query of one iteration: the filter either answers
    [False] and the invariant holds again, or it answers [True] on a
    machine that never halts. *)
Lemma escapee_step_query (m0 m : TuringMachine) (b : bool) (m2 : TuringMachine) :
  escapee_inv table n blank m0 ->
  current_state m0 <> HALT_STATE ->
  in_int (current_state m0) -> in_int (head_position m0) ->
  step_rel m0 m ->
  check_escapee m = Ok (b, m2) ->
  if b then never_halts m else escapee_inv table n blank m2.
Proof.
  intros (Ht & Hb & Hns & H0 & Hh & Hout & Hattr) Hq Hsi Hhi Hrel Hchk.
  destruct (step_summary m0 m Ht Hsi Hhi Hq Hh Hrel)
    as (mv & Hhead & Hmv & Hmin & Hmax & Hc & Hmove & Hact).
  pose proof Hrel as (Ht' & Hb' & Hn' & Hseen' & Hrun' & _).
  destruct (check_escapee_spec m b m2 Hchk) as [Hsame Hupd].
  assert (Htm : transition_table m = table) by congruence.
  assert (Hbm : blank_symbol m = blank) by congruence.
  assert (Hnm : num_states m = n) by congruence.
  assert (H0m : min_visited m <= 0 <= max_visited m) by lia.
  assert (Hhm : min_visited m <= head_position m <= max_visited m) by lia.
  assert (Houtm : forall p, p < min_visited m \/ max_visited m < p ->
                            tape_content m p = blank_symbol m).
  { intros p Hp. rewrite Hc by lia. rewrite Hb'. apply Hout. lia. }
  rewrite Hseen' in Hupd.
  destruct (_escapee_seen_positions m0) as [S|] eqn:HS;
    destruct (_escapee_blank_run_count m0) as [r0|] eqn:HR; try done.
  - destruct Hattr as (Hcov & Hinv & Hesc1).
    assert (Hescm : n = 1 -> current_state m <> HALT_STATE -> escaping m).
    { intros H1 _. eapply escaping_step_rel; [by apply Hesc1 | exact Hrel]. }
    assert (Hcovm : forall p, min_visited m <= p <= max_visited m -> p <> 0 ->
                              p ∈ S \/ p = head_position m).
    { intros p Hp Hp0.
      destruct (decide (min_visited m0 <= p <= max_visited m0)); [left; by apply Hcov|].
      right. lia. }
    destruct (bool_decide (tape_content m (head_position m) = blank_symbol m)
              && bool_decide (head_position m ∉ S)) eqn:Enb.
    + apply andb_true_iff in Enb as [Hblank Hnew].
      apply bool_decide_eq_true in Hblank, Hnew.
      destruct Hupd as (r & Hr & Hseen2 & Hrun2 & Hbv).
      rewrite Hrun' in Hr. injection Hr as <-.
      assert (Hcov2 : forall p, min_visited m <= p <= max_visited m -> p <> 0 ->
                                p ∈ S ∪ {[ head_position m ]}).
      { intros p Hp Hp0. destruct (Hcovm p Hp Hp0) as [?| ->]; seen_solver. }
      destruct Hinv as [Hr0|[(Hr0 & Hin0 & Hbl0)|(Hr0 & Hrun0)]].
      * subst r0.
        assert (b = false) as ->.
        { rewrite Hbv. apply bool_decide_eq_false. rewrite Hnm. lia. }
        apply (escapee_inv_intro m m2 (S ∪ {[ head_position m ]}) (0 + 1)); try done.
        right. left. split; [lia|]. split; [seen_solver|done].
      * subst r0.
        assert (Hmv0 : mv <> 0).
        { intros ->. apply Hnew. rewrite Hhead, Z.add_0_r. done. }
        destruct (Hmove Hmv0) as (w & Hl & Hsm & Hsm0).
        rewrite Hbl0 in Hl.
        destruct b.
        -- symmetry in Hbv. apply bool_decide_eq_true in Hbv. rewrite Hnm in Hbv.
           apply escaping_never_halts, Hescm; [lia|]. unfold HALT_STATE. lia.
        -- symmetry in Hbv. apply bool_decide_eq_false in Hbv. rewrite Hnm in Hbv.
           apply (escapee_inv_intro m m2 (S ∪ {[ head_position m ]}) (1 + 1)); try done.
           right. right. split; [lia|].
           destruct (decide (head_position m + mv ∈ S)) as [Hnext|Hnext].
           ++ right. unfold run_boxed.
              assert (Hprev : head_position m - mv ∈ S).
              { replace (head_position m - mv) with (head_position m0) by lia. done. }
              split; [lia|].
              destruct Hmv as [-> |[-> | ->]]; [|done|].
              ** replace (head_position m - 1) with (head_position m + -1) by lia.
                 replace (head_position m + 1) with (head_position m - -1) by lia.
                 split_and!; [seen_solver|seen_solver|seen_solver|unfold HALT_STATE; lia].
              ** split_and!; [seen_solver|seen_solver|seen_solver|unfold HALT_STATE; lia].
           ++ left. exists mv, [current_state m; current_state m0].
              assert (Hcls1 : head_position m < min_visited m0
                              \/ max_visited m0 < head_position m
                              \/ head_position m = 0).
              { destruct (decide (min_visited m0 <= head_position m <= max_visited m0
                                  /\ head_position m <> 0)) as [[? ?]|]; [|lia].
                exfalso. apply Hnew. by apply Hcov. }
              assert (Hcls2 : head_position m + mv < min_visited m0
                              \/ max_visited m0 < head_position m + mv
                              \/ head_position m + mv = 0).
              { destruct (decide (min_visited m0 <= head_position m + mv <= max_visited m0
                                  /\ head_position m + mv <> 0)) as [[? ?]|]; [|lia].
                exfalso. apply Hnext. by apply Hcov. }
              split_and!.
              ** destruct Hmv as [-> |[-> | ->]]; auto. done.
              ** done.
              ** done.
              ** split; [|done]. exists w. rewrite Htm, Hbm, <- Hb. done.
              ** intros a Ha. rewrite Hnm.
                 apply elem_of_cons in Ha as [-> |Ha]; [done|].
                 apply elem_of_cons in Ha as [-> |Ha]; [done|].
                 by apply elem_of_nil in Ha.
              ** intros i Hi. destruct (decide (i = 0)) as [-> |Hi0].
                 { rewrite Z.mul_0_l, Z.add_0_r. done. }
                 rewrite Hc by (destruct Hmv as [-> |[-> | ->]]; lia).
                 rewrite Hb'. apply Hout.
                 destruct Hmv as [-> |[-> | ->]]; lia.
              ** replace (head_position m - mv) with (head_position m0) by lia.
                 seen_solver.
              ** seen_solver.
      * destruct Hrun0 as [(d & ss & Hd & Hlen & Hhd & Hch & Hall & Hah & Hprev & Hcur)
                          |(_ & Hl & Hr & Hcur & _)].
        -- assert (Hmvd : mv = d).
           { destruct Hmv as [-> |[-> | ->]], Hd as [-> | ->]; try done; exfalso;
               apply Hnew; rewrite Hhead.
             - replace (head_position m0 + -1) with (head_position m0 - 1) by lia. done.
             - by rewrite Z.add_0_r.
             - by rewrite Z.add_0_r.
             - replace (head_position m0 + 1) with (head_position m0 - -1) by lia. done. }
           subst mv.
           assert (Hd0 : d <> 0) by (destruct Hd as [-> | ->]; done).
           destruct (Hmove Hd0) as (w & Hlk & Hsm & Hsm0).
           pose proof (Hah 0 ltac:(lia)) as Hhere.
           rewrite Z.mul_0_l, Z.add_0_r in Hhere. rewrite Hhere in Hlk.
           assert (Hrun_m : run_ahead m (S ∪ {[ head_position m ]}) (r0 + 1)).
           { exists d, (current_state m :: ss). split_and!.
             - done.
             - simpl length. lia.
             - done.
             - destruct ss as [|a l]; [done|]. injection Hhd as ->.
               split; [exists w; by rewrite Htm, Hbm, <- Hb|].
               rewrite Ht', Hb'. exact Hch.
             - intros a Ha. apply elem_of_cons in Ha as [-> |Ha]; [by rewrite Hnm|].
               rewrite Hn'. by apply Hall.
             - intros i Hi. rewrite Hc by (destruct Hd as [-> | ->]; lia).
               rewrite Hb'.
               replace (head_position m + i * d) with (head_position m0 + (i + 1) * d) by lia.
               apply Hah. lia.
             - replace (head_position m - d) with (head_position m0) by lia. seen_solver.
             - seen_solver. }
           destruct b.
           ++ symmetry in Hbv. apply bool_decide_eq_true in Hbv.
              apply escaping_never_halts. apply (run_ahead_escaping m _ _ Hrun_m). lia.
           ++ apply (escapee_inv_intro m m2 (S ∪ {[ head_position m ]}) (r0 + 1)); try done.
              right. right. split; [lia|]. by left.
        -- exfalso. apply Hnew. rewrite Hhead.
           destruct Hmv as [-> |[-> | ->]].
           ++ replace (head_position m0 + -1) with (head_position m0 - 1) by lia. done.
           ++ by rewrite Z.add_0_r.
           ++ done.
    + destruct Hupd as (Hseen2 & Hrun2 & Hbv).
      assert (b = false) as ->.
      { rewrite Hbv. apply bool_decide_eq_false. rewrite Hnm. lia. }
      apply (escapee_inv_intro m m2 S 0); try done; [|by left].
      intros p Hp Hp0. destruct (Hcovm p Hp Hp0) as [?| ->]; [done|].
      destruct (decide (min_visited m0 <= head_position m <= max_visited m0)) as [Hin|Hnin];
        [by apply Hcov|].
      apply andb_false_iff in Enb as [Hnb|Hnn].
      * apply bool_decide_eq_false in Hnb. exfalso. apply Hnb.
        rewrite Hc by lia. rewrite Hb'. apply Hout. lia.
      * apply bool_decide_eq_false in Hnn.
        destruct (decide (head_position m ∈ S)); [done|]. exfalso. by apply Hnn.
  - destruct Hattr as (Hmin0 & Hmax0 & Hhead0 & Hall).
    destruct Hupd as (-> & Hseen2 & Hrun2).
    apply (escapee_inv_intro m m2 {[ head_position m ]} 0); try done.
    + intros p Hp Hp0. assert (p = head_position m) as -> by lia. seen_solver.
    + by left.
    + intros H1 Hactm. specialize (Hact Hactm).
      destruct (Hmove Hact) as (w & Hl & Hsm & Hsm0).
      rewrite Hall in Hl.
      assert (Hq1 : current_state m = 1) by lia.
      assert (Hq0 : current_state m0 = 1) by lia.
      rewrite Hq1, Hq0 in Hl.
      exists mv, [1]. split_and!.
      * destruct Hmv as [-> |[-> | ->]]; auto. done.
      * rewrite Hq1. seen_solver.
      * intros a Ha. apply elem_of_cons in Ha as [-> |Ha]; [|by apply elem_of_nil in Ha].
        split; [done|]. exists 1, w. rewrite Htm, Hbm, <- Hb. split; [done|seen_solver].
      * intros i Hi. rewrite Hc by (destruct Hmv as [-> |[-> | ->]]; lia).
        rewrite Hb'. apply Hall.
Qed.

Lemma cython_step_in_int (m : TuringMachine) (v : Z) (m' : TuringMachine) :
  cython_step m = Ok (v, m') -> in_int (current_state m) /\ in_int (head_position m).
Proof.
  intros Hstep. unfold cython_step in Hstep.
  destruct (as_int (current_state m)) as [q|] eqn:Eq; [|done].
  destruct (as_int (head_position m)) as [h|] eqn:Eh; [|done].
  apply as_int_inv in Eq as [_ ?]. apply as_int_inv in Eh as [_ ?]. done.
Qed.

Lemma initial_escapee_inv : escapee_inv table n blank (initial_machine table n blank).
Proof. unfold escapee_inv, initial_machine, tape_content. simpl. split_and!; done. Qed.

Variable use_cycle_two : bool.

Lemma reaches_escapee_inv (st : stage) (m : TuringMachine) :
  reaches table n blank true use_cycle_two st m ->
  escapee_stage_inv table n blank st m.
Proof.
  induction 1 as [|m v m' Hr IH Hq Hstep|m m' c _ Hr IH Hesc
                  |m m' e Huc Hr IH Hcyc|m e c Hr IH He Hc].
  - apply initial_escapee_inv.
  - destruct (cython_step_in_int m v m' Hstep) as [Hsi Hhi].
    exists m. split_and!; try done. by apply (cython_step_rel m v).
  - destruct IH as (m0 & Hinv & Hq0 & Hsi & Hhi & Hrel).
    destruct c; apply (escapee_step_query m0 m false m' Hinv Hq0 Hsi Hhi Hrel Hesc).
  - rewrite check_cycle_two_unfold in Hcyc. injection Hcyc as _ <-.
    destruct e; exact IH.
  - subst e. destruct c; exact IH.
Qed.

Lemma check_escapee_sound (c : bool) (m m' : TuringMachine) :
  reaches table n blank true use_cycle_two (AfterStep false c) m ->
  check_escapee m = Ok (true, m') ->
  never_halts m.
Proof.
  intros Hr Hesc.
  destruct (reaches_escapee_inv _ _ Hr) as (m0 & Hinv & Hq0 & Hsi & Hhi & Hrel).
  apply (escapee_step_query m0 m true m' Hinv Hq0 Hsi Hhi Hrel Hesc).
Qed.
End Escapee.

(** C2.  On a run from the initial blank-tape configuration of a valid
    table for [n >= 1] states, with [num_states = n], in which each enabled
    filter is queried once after every step: if [check_escapee] or
    [check_cycle_two] answers [True] at the configuration a step has
    produced, no number of further calls of [cython_step] brings the
    machine into the halt state. *)
Theorem runtime_filters_sound (table : tm_table) (n : Z) (blank : string)
    (use_escapee use_cycle_two : bool) (m m' : TuringMachine) :
  1 <= n ->
  valid_table table n ->
  (forall c : bool,
     use_escapee = true ->
     reaches table n blank use_escapee use_cycle_two (AfterStep false c) m ->
     check_escapee m = Ok (true, m') ->
     never_halts m)
  /\ (forall e : bool,
        use_cycle_two = true ->
        reaches table n blank use_escapee use_cycle_two (AfterStep e false) m ->
        check_cycle_two m = (true, m') ->
        never_halts m).
Proof.
  intros Hn Hvalid. split.
  - intros c -> Hr Hesc.
    exact (check_escapee_sound table n blank Hn Hvalid use_cycle_two c m m' Hr Hesc).
  - intros e -> Hr Hcyc.
    exact (check_cycle_two_sound table blank n use_escapee e m m' Hr Hcyc).
Qed.

Lemma runtime_filters_sound_witness :
  never_halts (step_obj (escapee_iteration (escapee_iteration
                 (initial_machine runaway_table 1 "0"))))
  /\ never_halts (step_obj (cycle_two_iteration (cycle_two_iteration (cycle_two_iteration
                    (initial_machine pingpong_table 2 "0"))))).
Proof.
  split.
  - set (m0 := initial_machine runaway_table 1 "0").
    set (m1 := escapee_iteration m0). set (m2 := escapee_iteration m1).
    assert (Hv : valid_table runaway_table 1) by vm_compute_decide.
    assert (R0 : reaches runaway_table 1 "0" true false LoopTop m0)
      by apply reaches_init.
    assert (R1 : reaches runaway_table 1 "0" true false LoopTop m1).
    { apply (reaches_next _ _ _ _ _ m1 true false); [|done|done].
      apply (reaches_escapee _ _ _ _ _ (step_obj m0) m1 false); [done| |by vm_compute].
      apply (reaches_step _ _ _ _ _ m0 1 (step_obj m0) R0); [done|by vm_compute]. }
    assert (R2 : reaches runaway_table 1 "0" true false LoopTop m2).
    { apply (reaches_next _ _ _ _ _ m2 true false); [|done|done].
      apply (reaches_escapee _ _ _ _ _ (step_obj m1) m2 false); [done| |by vm_compute].
      apply (reaches_step _ _ _ _ _ m1 1 (step_obj m1) R1); [done|by vm_compute]. }
    assert (R3 : reaches runaway_table 1 "0" true false (AfterStep false false) (step_obj m2)).
    { apply (reaches_step _ _ _ _ _ m2 1 (step_obj m2) R2); [done|by vm_compute]. }
    apply (proj1 (runtime_filters_sound runaway_table 1 "0" true false (step_obj m2)
                    (escapee_iteration m2) ltac:(lia) Hv) false eq_refl R3).
    by vm_compute.
  - set (m0 := initial_machine pingpong_table 2 "0").
    set (m1 := cycle_two_iteration m0). set (m2 := cycle_two_iteration m1).
    set (m3 := cycle_two_iteration m2).
    assert (Hv : valid_table pingpong_table 2) by vm_compute_decide.
    assert (R0 : reaches pingpong_table 2 "0" false true LoopTop m0)
      by apply reaches_init.
    assert (R1 : reaches pingpong_table 2 "0" false true LoopTop m1).
    { apply (reaches_next _ _ _ _ _ m1 false true); [|done|done].
      apply (reaches_cycle_two _ _ _ _ _ (step_obj m0) m1 false); [done| |by vm_compute].
      apply (reaches_step _ _ _ _ _ m0 1 (step_obj m0) R0); [done|by vm_compute]. }
    assert (R2 : reaches pingpong_table 2 "0" false true LoopTop m2).
    { apply (reaches_next _ _ _ _ _ m2 false true); [|done|done].
      apply (reaches_cycle_two _ _ _ _ _ (step_obj m1) m2 false); [done| |by vm_compute].
      apply (reaches_step _ _ _ _ _ m1 1 (step_obj m1) R1); [done|by vm_compute]. }
    assert (R3 : reaches pingpong_table 2 "0" false true LoopTop m3).
    { apply (reaches_next _ _ _ _ _ m3 false true); [|done|done].
      apply (reaches_cycle_two _ _ _ _ _ (step_obj m2) m3 false); [done| |by vm_compute].
      apply (reaches_step _ _ _ _ _ m2 1 (step_obj m2) R2); [done|by vm_compute]. }
    assert (R4 : reaches pingpong_table 2 "0" false true (AfterStep false false) (step_obj m3)).
    { apply (reaches_step _ _ _ _ _ m3 1 (step_obj m3) R3); [done|by vm_compute]. }
    apply (proj2 (runtime_filters_sound pingpong_table 2 "0" false true (step_obj m3)
                    (cycle_two_iteration m3) ltac:(lia) Hv) false eq_refl R4).
    by vm_compute.
Defined.

(** * Further properties of the codec *)

(** ** Single transitions *)

Lemma encode_normalised_symbol (ns : Z) (w : string) (mv n : Z) :
  _encode_transition_cy ns
    (if decide (w = "0"%string) then "0"%string else "1"%string) mv n
  = _encode_transition_cy ns w mv n.
Proof.
  unfold _encode_transition_cy.
  destruct (decide (w = "0"%string)) as [->|Hw]; [reflexivity|].
  destruct (decide ("1"%string = "0"%string)) as [?|_]; [discriminate|].
  reflexivity.
Qed.

(** X1.  [_encode_transition_cy] and the digit decoding of
    [int_to_tm_table] are inverse to each other: for [1 <= n <= 2^28] the
    code of a valid transition lies in [[0, 4n+2)] and decodes to that
    transition, and every digit of [[0, 4n+2)] decodes to a valid
    transition whose code it is. *)
Theorem transition_code_round_trip (n : Z) :
  1 <= n <= 2 ^ 28 ->
  (forall tr : transition, valid_transition n tr ->
     0 <= _encode_transition_cy tr.1.1 tr.1.2 tr.2 n < 4 * n + 2
     /\ decode_code (_encode_transition_cy tr.1.1 tr.1.2 tr.2 n) = Ok tr)
  /\ (forall d : Z, 0 <= d < 4 * n + 2 ->
        exists tr, decode_code d = Ok tr /\ valid_transition n tr
                   /\ _encode_transition_cy tr.1.1 tr.1.2 tr.2 n = d).
Proof.
  intros Hn. split.
  - intros tr Hv. pose proof (encode_valid_transition n tr Hn Hv) as H.
    cbv zeta in H. rewrite encode_normalised_symbol in H. destruct H as [Hr Hd].
    split; [exact Hr|]. rewrite decode_code_spec by lia. by rewrite Hd.
  - intros d Hd. pose proof (encode_decoded_digit n d Hn Hd) as H.
    cbv zeta in H. rewrite encode_normalised_symbol in H. destruct H as [Hv He].
    exists (spec_decode_digit d). split; [|done]. apply decode_code_spec. lia.
Qed.

Lemma transition_code_round_trip_witness :
  decode_code (_encode_transition_cy 2 "1" (-1) 2) = Ok (2, "1"%string, -1)
  /\ exists tr, decode_code 9 = Ok tr /\ _encode_transition_cy tr.1.1 tr.1.2 tr.2 2 = 9.
Proof.
  destruct (transition_code_round_trip 2 ltac:(lia)) as [H1 H2]. split.
  - apply (H1 (2, "1"%string, -1)). vm_compute_decide.
  - destruct (H2 9 ltac:(lia)) as (tr & Hd & _ & He). by exists tr.
Defined.

(** ** Whole tables *)

(** X2.  The decoder returns a valid transition table for every state
    count [1 <= n <= 10] and every integer that fits the C [long]
    parameter, negative ones and ones beyond [(4n+2)^(2n)] included. *)
Theorem int_to_tm_table_always_valid (n k : Z) :
  1 <= n <= 10 -> in_long k ->
  exists t, int_to_tm_table k n = Ok t /\ valid_table t n.
Proof.
  intros Hn Hk. destruct (int_to_tm_table_lookup n k Hn Hk) as (T & Hrun & HT).
  exists T. split; [done|]. by apply (int_to_tm_table_valid n k).
Qed.

Lemma int_to_tm_table_always_valid_witness :
  exists t, int_to_tm_table (-1) 7 = Ok t /\ valid_table t 7.
Proof.
  apply (int_to_tm_table_always_valid 7 (-1)); [lia|].
  vm_compute. split; discriminate.
Defined.

(** X3.  [tm_to_int] is injective on the valid tables for [1 <= n <= 6]
    states. *)
Theorem tm_to_int_injective (n : Z) (t t' : tm_table) :
  1 <= n <= 6 -> valid_table t n -> valid_table t' n ->
  tm_to_int t n = tm_to_int t' n -> t = t'.
Proof.
  intros Hn Hv Hv' Heq.
  destruct (decode_encode n t Hn Hv) as (k & Hk & _ & Hd).
  destruct (decode_encode n t' Hn Hv') as (k' & Hk' & _ & Hd').
  rewrite Hk, Hk' in Heq. injection Heq as ->.
  rewrite Hd in Hd'. by injection Hd'.
Qed.

Lemma tm_to_int_injective_witness :
  list_to_map [((1, "0"%string), (1, "1"%string, 1)); ((1, "1"%string), (0, "1"%string, 0))]
  = runaway_table.
Proof.
  apply (tm_to_int_injective 1); [lia| | |]; [vm_compute_decide..|].
  vm_compute. reflexivity.
Defined.

Lemma for_each_ext {A S} (l : list A) (f g : A -> S -> result S) (s : S) :
  (forall x, x ∈ l -> forall s, f x s = g x s) ->
  for_each l f s = for_each l g s.
Proof.
  revert s. induction l as [|x l IH]; intros s H; [done|].
  cbn [for_each]. rewrite (H x) by (apply elem_of_cons; by left).
  destruct (g x s) as [s'|e]; cbn [mbind result_bind]; [|done].
  apply IH. intros y Hy. apply H, elem_of_cons. by right.
Qed.

(** X4.  [tm_to_int] reads the table only under the [2n] keys
    [(state, symbol)] with [1 <= state <= n]: two dictionaries that agree
    on these keys give the same result, whatever else they hold. *)
Theorem tm_to_int_reads_only_keys (t t' : tm_table) (n : Z) :
  (forall key, key ∈ table_keys n -> t !! key = t' !! key) ->
  tm_to_int t n = tm_to_int t' n.
Proof.
  intros H. unfold tm_to_int.
  destruct (as_int n) as [n'|e] eqn:En; cbn [mbind result_bind]; [|done].
  apply as_int_inv in En as [-> _]. unfold tm_to_int_c.
  apply for_each_ext. intros s Hs num. apply elem_of_seqZ in Hs.
  apply for_each_ext. intros j Hj num'. rewrite seqZ_symbols in Hj.
  unfold tm_to_int_cell.
  assert (Hsym : symbol_at j = Ok (spec_symbol j)).
  { apply elem_of_cons in Hj as [->|Hj]; [done|].
    apply elem_of_cons in Hj as [->|Hj]; [done|]. by apply elem_of_nil in Hj. }
  rewrite Hsym. cbn [mbind result_bind].
  rewrite (H (s, spec_symbol j)); [done|].
  apply elem_of_table_keys. simpl. split; [lia|].
  unfold spec_symbol. destruct (decide (j = 0)); auto.
Qed.

Lemma tm_to_int_reads_only_keys_witness :
  tm_to_int demo_table 2 = tm_to_int (<[(3, "0"%string) := (0, "0"%string, 0)]> demo_table) 2.
Proof.
  apply (tm_to_int_reads_only_keys demo_table
           (<[(3, "0"%string) := (0, "0"%string, 0)]> demo_table) 2).
  intros [s sym] Hk. apply elem_of_table_keys in Hk. simpl in Hk.
  symmetry. apply lookup_insert_ne. intros [= Hs _]. lia.
Defined.

Lemma tm_to_int_cell_missing (t : tm_table) (n b s j num : Z) :
  j = 0 \/ j = 1 ->
  t !! (s, spec_symbol j) = None ->
  tm_to_int_cell t n b s j num = Raise KeyError.
Proof.
  intros Hj Ht. unfold tm_to_int_cell.
  assert (symbol_at j = Ok (spec_symbol j)) as -> by (by destruct Hj as [-> | ->]).
  cbn [mbind result_bind]. by rewrite Ht.
Qed.





Lemma seqZ_nonpos (m len : Z) : len <= 0 -> seqZ m len = [].
Proof.
  intros H. unfold seqZ. by replace (Z.to_nat len) with 0%nat by lia.
Qed.

(** X6.  A state count that is not positive is not rejected: [tm_to_int]
    returns [0] without reading the table, and [int_to_tm_table] returns
    the empty dictionary. *)
Theorem codec_nonpositive_states (t : tm_table) (n k : Z) :
  n <= 0 ->
  (in_int n -> tm_to_int t n = Ok 0)
  /\ (- 2 ^ 30 <= n -> in_long k -> int_to_tm_table k n = Ok ∅).
Proof.
  intros Hn. split.
  - intros Hi. unfold tm_to_int. rewrite (as_int_ok n Hi).
    cbn [mbind result_bind]. unfold tm_to_int_c. by rewrite seqZ_nonpos.
  - intros Hlo Hk. unfold int_to_tm_table.
    rewrite (as_long_ok k Hk). cbn [mbind result_bind].
    rewrite (as_int_ok n) by (unfold in_int, int_min, int_max; lia).
    cbn [mbind result_bind]. unfold int_to_tm_table_c.
    rewrite (wrap_int_id (2 * n)) by (unfold in_int, int_min, int_max; lia).
    rewrite (seqZ_nonpos 0 (2 * n)) by lia. rewrite (seqZ_nonpos 1 n) by lia.
    reflexivity.
Qed.

Lemma codec_nonpositive_states_witness :
  tm_to_int demo_table (-3) = Ok 0 /\ int_to_tm_table 5 (-3) = Ok ∅.
Proof.
  destruct (codec_nonpositive_states demo_table (-3) 5 ltac:(lia)) as [H1 H2].
  split.
  - apply H1. vm_compute. split; discriminate.
  - apply H2; [lia|]. vm_compute. split; discriminate.
Defined.

Lemma wrap_long_absorb (x b c : Z) :
  wrap_long (wrap_long x * b + c) = wrap_long (x * b + c).
Proof.
  unfold wrap_long.
  replace ((x + 2 ^ 63) mod 2 ^ 64 - 2 ^ 63)
    with (x - 2 ^ 64 * ((x + 2 ^ 63) / 2 ^ 64))
    by (pose proof (Z.div_mod (x + 2 ^ 63) (2 ^ 64) ltac:(lia)); lia).
  f_equal.
  replace ((x - 2 ^ 64 * ((x + 2 ^ 63) / 2 ^ 64)) * b + c + 2 ^ 63)
    with (x * b + c + 2 ^ 63 + (- ((x + 2 ^ 63) / 2 ^ 64) * b) * 2 ^ 64) by lia.
  apply Z_mod_plus_full.
Qed.

Lemma tm_to_int_loop_wrap (t : tm_table) (n b : Z) (N : nat) :
  (forall (s : nat) (sym : string), (1 <= s <= N)%nat ->
     sym = "0"%string \/ sym = "1"%string ->
     exists tr, t !! (Z.of_nat s, sym) = Some tr /\ in_int tr.1.1 /\ in_int tr.2) ->
  forall j : nat, (j <= N)%nat ->
    for_each (seqZ 1 (Z.of_nat j))
      (fun state number =>
         for_each (seqZ 0 NUM_SYMBOLS_C)
           (fun sym_idx number => tm_to_int_cell t n b state sym_idx number) number)
      0
    = Ok (wrap_long (enc_prefix (cell_code t n) b j)).
Proof.
  intros Hcells. induction j as [|j IH]; intros Hj; [reflexivity|].
  replace (Z.of_nat (S j)) with (Z.of_nat j + 1) by lia.
  rewrite seqZ_app by lia. rewrite for_each_app. rewrite IH by lia.
  cbn [mbind result_bind].
  replace (seqZ (1 + Z.of_nat j) 1) with [Z.of_nat (S j)]
    by (replace (1 + Z.of_nat j) with (Z.of_nat (S j)) by lia; reflexivity).
  cbn [for_each]. rewrite seqZ_symbols. cbn [for_each].
  destruct (Hcells (S j) "0"%string ltac:(lia) (or_introl eq_refl)) as (tr0 & E0 & Ha0 & Hb0).
  destruct (Hcells (S j) "1"%string ltac:(lia) (or_intror eq_refl)) as (tr1 & E1 & Ha1 & Hb1).
  rewrite (tm_to_int_cell_ok t n b _ 0 _ tr0 (or_introl eq_refl) E0 Ha0 Hb0).
  cbn [mbind result_bind].
  rewrite (tm_to_int_cell_ok t n b _ 1 _ tr1 (or_intror eq_refl) E1 Ha1 Hb1).
  cbn [mbind result_bind]. f_equal.
  rewrite (wrap_long_absorb (enc_prefix (cell_code t n) b j)).
  rewrite wrap_long_absorb.
  change (spec_symbol 0) with "0"%string. change (spec_symbol 1) with "1"%string.
  reflexivity.
Qed.

Lemma tm_to_int_valid_wrap (t : tm_table) (n : Z) :
  1 <= n <= 2 ^ 28 -> valid_table t n ->
  tm_to_int t n
  = Ok (wrap_long (enc_prefix (cell_code t n) (4 * n + 2) (Z.to_nat n))).
Proof.
  intros Hn Hv. unfold tm_to_int.
  rewrite (as_int_ok n) by (unfold in_int, int_min, int_max; lia).
  cbn [mbind result_bind]. unfold tm_to_int_c.
  rewrite (wrap_int_id (4 * n + 2)) by (unfold in_int, int_min, int_max; lia).
  replace n with (Z.of_nat (Z.to_nat n)) at 1 by lia.
  apply (tm_to_int_loop_wrap t n (4 * n + 2) (Z.to_nat n)); [|lia].
  intros s sym Hs Hsym.
  destruct (valid_table_lookup t n (Z.of_nat s) sym Hv ltac:(lia) Hsym) as (tr & Htr & Hvt).
  exists tr. split; [done|].
  destruct Hvt as [_ [[-> ->]|[H1 [-> | ->]]]];
    unfold in_int, int_min, int_max; lia.
Qed.

(** X7.  [tm_to_int] never reports an overflow of its C [long]
    accumulator: on a valid table for [1 <= n <= 2^28] states it returns
    the positional value of the [2n] transition codes in base [4n+2]
    wrapped around into the signed 64-bit range. *)
Theorem tm_to_int_wraps (t : tm_table) (n : Z) :
  1 <= n <= 2 ^ 28 -> valid_table t n ->
  tm_to_int t n
  = Ok (wrap_long (enc_prefix (cell_code t n) (4 * n + 2) (Z.to_nat n))).
Proof. apply tm_to_int_valid_wrap. Qed.

Lemma tm_to_int_wraps_witness :
  tm_to_int (uniform_table 7 (7, "1"%string, 1)) 7
  = Ok (wrap_long (enc_prefix (cell_code (uniform_table 7 (7, "1"%string, 1)) 7)
                     (4 * 7 + 2) (Z.to_nat 7))).
Proof.
  apply (tm_to_int_wraps (uniform_table 7 (7, "1"%string, 1)) 7); [lia|].
  vm_compute_decide.
Defined.

Lemma enc_prefix_decoded (n k : Z) (T : tm_table) :
  1 <= n <= 10 -> 0 <= k < (4 * n + 2) ^ (2 * n) ->
  (forall key, T !! key = decoded_lookup n k n key) ->
  enc_prefix (cell_code T n) (4 * n + 2) (Z.to_nat n) = k.
Proof.
  intros Hn Hk HT.
  set (b := 4 * n + 2) in *. set (N := Z.to_nat n).
  assert (HN : Z.of_nat N = n) by (subst N; lia).
  rewrite (enc_prefix_of_digits (cell_code T n) b ltac:(lia) N k N); [| | |lia].
  - rewrite Z.sub_diag. simpl. apply Z.div_1_r.
  - by rewrite HN.
  - intros s Hs. rewrite HN. unfold cell_code. rewrite !HT. unfold decoded_lookup. simpl.
    destruct (decide (1 <= Z.of_nat s <= n)); [|lia]. simpl. fold b.
    split; apply encode_decoded_digit; try lia; apply big_endian_digit_bound; lia.
Qed.

(** X8.  Encoding after decoding reduces modulo the number of tables: for
    [1 <= n <= 10] and every integer [k] that fits a C [long],
    [tm_to_int(int_to_tm_table(k, n), n)] is [k mod (4n+2)^(2n)] wrapped
    around into the signed 64-bit range, which for [n <= 6] is
    [k mod (4n+2)^(2n)] itself. *)
Theorem tm_to_int_of_decoded (n k : Z) :
  1 <= n <= 10 -> in_long k ->
  exists t, int_to_tm_table k n = Ok t
            /\ tm_to_int t n = Ok (wrap_long (k mod (4 * n + 2) ^ (2 * n)))
            /\ (n <= 6 -> tm_to_int t n = Ok (k mod (4 * n + 2) ^ (2 * n))).
Proof.
  intros Hn Hk. set (M := (4 * n + 2) ^ (2 * n)).
  assert (HM : 0 < M) by (apply Z.pow_pos_nonneg; lia).
  assert (Hr : 0 <= k mod M < M) by (apply Z.mod_pos_bound; lia).
  destruct (int_to_tm_table_lookup n k Hn Hk) as (T & HT & HL).
  assert (HL' : forall key, T !! key = decoded_lookup n (k mod M) n key).
  { intros key. rewrite HL. symmetry. apply decoded_lookup_mod. lia. }
  pose proof (int_to_tm_table_valid n k T Hn HL) as Hv.
  pose proof (enc_prefix_decoded n (k mod M) T Hn Hr HL') as He.
  pose proof (tm_to_int_valid_wrap T n ltac:(lia) Hv) as Hw. rewrite He in Hw.
  exists T. split_and!; [done|done|]. intros H6. rewrite Hw. f_equal.
  apply wrap_long_id. pose proof (pow_base_fits n ltac:(lia)) as Hfit. fold M in Hfit.
  unfold in_long, long_min, long_max. lia.
Qed.

Lemma tm_to_int_of_decoded_witness :
  (exists t, int_to_tm_table (-1) 1 = Ok t /\ tm_to_int t 1 = Ok 35)
  /\ (exists t, int_to_tm_table (-1) 7 = Ok t
                /\ tm_to_int t 7 = Ok (wrap_long ((-1) mod (4 * 7 + 2) ^ (2 * 7)))).
Proof.
  assert (Hk : in_long (-1)) by (vm_compute; split; discriminate).
  split.
  - destruct (tm_to_int_of_decoded 1 (-1) ltac:(lia) Hk) as (t & H1 & _ & H2).
    exists t. split; [exact H1|]. apply H2. lia.
  - destruct (tm_to_int_of_decoded 7 (-1) ltac:(lia) Hk) as (t & H1 & H2 & _).
    exists t. split; [exact H1|exact H2].
Defined.

(** ** Tables that are not valid *)

Lemma encode_normalise (tr : transition) (n : Z) :
  _encode_transition_cy (normalise_transition tr).1.1 (normalise_transition tr).1.2
    (normalise_transition tr).2 n
  = _encode_transition_cy tr.1.1 tr.1.2 tr.2 n.
Proof.
  destruct tr as [[ns w] mv]. unfold normalise_transition, _encode_transition_cy.
  simpl. destruct (decide (ns = HALT_STATE_C)) as [->|Hns]; simpl.
  - destruct (decide (w = "0"%string)) as [->|Hw]; reflexivity.
  - destruct (decide (ns = HALT_STATE_C)); [done|].
    destruct (decide (w = "0"%string)) as [->|Hw];
      destruct (decide (mv = MOVE_L_C)) as [->|Hmv]; reflexivity.
Qed.

Lemma valid_normalise (n : Z) (tr : transition) :
  0 <= tr.1.1 <= n -> valid_transition n (normalise_transition tr).
Proof.
  destruct tr as [[ns w] mv]. unfold normalise_transition, valid_transition.
  simpl. intros Hns.
  destruct (decide (ns = HALT_STATE_C)) as [->|Hne]; simpl.
  - split; [destruct (decide (w = "0"%string)); auto|]. left. done.
  - split; [destruct (decide (w = "0"%string)); auto|]. right.
    unfold HALT_STATE_C in Hne. split; [lia|].
    destruct (decide (mv = MOVE_L_C)); auto.
Qed.

Lemma tm_to_int_normalise (t : tm_table) (n : Z) :
  (forall key tr, key ∈ table_keys n -> t !! key = Some tr -> in_int tr.2) ->
  tm_to_int (normalise_transition <$> t) n = tm_to_int t n.
Proof.
  intros Hmv. unfold tm_to_int.
  destruct (as_int n) as [n'|e] eqn:En; cbn [mbind result_bind]; [|done].
  apply as_int_inv in En as [-> _]. unfold tm_to_int_c.
  apply for_each_ext. intros s Hs num. apply elem_of_seqZ in Hs.
  apply for_each_ext. intros j Hj num'. rewrite seqZ_symbols in Hj.
  assert (Hj' : j = 0 \/ j = 1).
  { apply elem_of_cons in Hj as [->|Hj]; [by left|].
    apply elem_of_cons in Hj as [->|Hj]; [by right|]. by apply elem_of_nil in Hj. }
  destruct (t !! (s, spec_symbol j)) as [tr|] eqn:E.
  - assert (Hin : in_int tr.2).
    { apply (Hmv (s, spec_symbol j)); [|done]. apply elem_of_table_keys. simpl.
      split; [lia|]. by destruct Hj' as [-> | ->]; [left|right]. }
    unfold tm_to_int_cell.
    assert (symbol_at j = Ok (spec_symbol j)) as -> by (by destruct Hj' as [-> | ->]).
    cbn [mbind result_bind]. rewrite lookup_fmap, E. cbn [fmap option_fmap option_map].
    assert (Hns : (normalise_transition tr).1.1 = tr.1.1).
    { destruct tr as [[ns w] mv]. unfold normalise_transition. simpl.
      by destruct (decide (ns = HALT_STATE_C)) as [->|?]. }
    rewrite Hns. destruct (as_int tr.1.1) as [ns|e] eqn:Ens; cbn [mbind result_bind]; [|done].
    apply as_int_inv in Ens as [-> _].
    assert (Hmv' : in_int (normalise_transition tr).2).
    { destruct tr as [[ns' w] mv]. unfold normalise_transition. simpl.
      destruct (decide (ns' = HALT_STATE_C)); simpl;
        [|destruct (decide (mv = MOVE_L_C))]; vm_compute; split; discriminate. }
    rewrite (as_int_ok _ Hmv'), (as_int_ok _ Hin). cbn [mbind result_bind].
    do 3 f_equal. rewrite !encode_normalised_symbol.
    pose proof (encode_normalise tr n) as He. rewrite Hns in He.
    exact He.
  - rewrite !(tm_to_int_cell_missing _ n _ s j _ Hj'); [done|done|].
    by rewrite lookup_fmap, E.
Qed.

(** X9.  The encoder does not check its table: for [1 <= n <= 6], on
    a dictionary with the [2n] keys whose next states lie in [0..n] and
    whose moves fit a C [int], whatever the written symbols and the moves
    are, [tm_to_int] returns a code below [(4n+2)^(2n)], and decoding it
    gives the table with every transition normalised (a written symbol
    other than ['0'] becomes ['1'], a halting transition does not move, a
    move other than left becomes right). *)
Theorem codec_round_trip_normalises (n : Z) (t : tm_table) :
  1 <= n <= 6 ->
  dom t = table_keys n ->
  (forall key tr, t !! key = Some tr -> 0 <= tr.1.1 <= n /\ in_int tr.2) ->
  exists k, tm_to_int t n = Ok k /\ 0 <= k < (4 * n + 2) ^ (2 * n)
            /\ int_to_tm_table k n = Ok (normalise_transition <$> t).
Proof.
  intros Hn Hdom Hrange.
  assert (Hv : valid_table (normalise_transition <$> t) n).
  { split; [by rewrite dom_fmap_L|].
    intros key tr' H. rewrite lookup_fmap in H.
    destruct (t !! key) as [tr|] eqn:E; [|done]. injection H as <-.
    apply valid_normalise. by apply (Hrange key). }
  destruct (decode_encode n _ Hn Hv) as (k & Hk & Hr & Hd).
  exists k. split; [|split; [exact Hr|exact Hd]].
  rewrite <- Hk. symmetry. apply tm_to_int_normalise.
  intros key tr _ Htr. by apply (Hrange key).
Qed.

Lemma codec_round_trip_normalises_witness :
  let t : tm_table :=
    {[ (1, "0"%string) := (1, "x"%string, 5); (1, "1"%string) := (0, "1"%string, 1) ]} in
  exists k, tm_to_int t 1 = Ok k /\ int_to_tm_table k 1 = Ok (normalise_transition <$> t).
Proof.
  intros t.
  assert (Hdom : dom t = table_keys 1) by vm_compute_decide.
  assert (Hrange : map_Forall (fun _ tr => 0 <= tr.1.1 <= 1
                                           /\ int_min <= tr.2 <= int_max) t)
    by vm_compute_decide.
  destruct (codec_round_trip_normalises 1 t ltac:(lia) Hdom Hrange) as (k & H1 & _ & H2).
  exists k. split; [exact H1|exact H2].
Defined.

(** * Further properties of the simulator kernel *)

(** ** One call of [cython_step] *)

Lemma step_obj_cases (m : TuringMachine) :
  let sym := tape_content m (head_position m) in
  let tape1 := (tape_getitem (blank_symbol m) (tape m) (head_position m)).2 in
  ((~ in_int (current_state m) \/ ~ in_int (head_position m)
    \/ current_state m = HALT_STATE)
   /\ step_obj m = m)
  \/ (in_int (current_state m) /\ in_int (head_position m)
      /\ current_state m <> HALT_STATE
      /\ transition_table m !! (current_state m, sym) = None
      /\ step_obj m = set_current_state HALT_STATE (set_tape tape1 m))
  \/ (exists ns w mv,
        in_int (current_state m) /\ in_int (head_position m)
        /\ current_state m <> HALT_STATE
        /\ transition_table m !! (current_state m, sym) = Some (ns, w, mv)
        /\ step_obj m =
             mkTM (transition_table m) (num_states m) (blank_symbol m)
                  (<[head_position m := w]> tape1)
                  (head_position m + mv) ns
                  (Z.min (min_visited m) (head_position m + mv))
                  (Z.max (max_visited m) (head_position m + mv))
                  (steps_taken m + 1)
                  (_escapee_seen_positions m) (_escapee_blank_run_count m)
                  (_cycle_history m)).
Proof.
  intros sym tape1.
  destruct (in_int_dec (current_state m)) as [Hs|Hs].
  2:{ left. split; [by left|]. unfold step_obj, cython_step.
      by rewrite (as_int_raise _ Hs). }
  destruct (in_int_dec (head_position m)) as [Hh|Hh].
  2:{ left. split; [right; by left|]. unfold step_obj, cython_step.
      by rewrite (as_int_ok _ Hs), (as_int_raise _ Hh). }
  destruct (cython_step_cases m Hs Hh)
    as [[H0 Hc]|[(H0 & Ht & Hc)|(ns & w & mv & H0 & Ht & Hc)]].
  - left. split; [right; by right|]. unfold step_obj. by rewrite Hc.
  - right; left. unfold step_obj. rewrite Hc. by split_and!.
  - right; right. exists ns, w, mv. unfold step_obj. rewrite Hc. by split_and!.
Qed.

(** X10.  The verdict of [cython_step] tells whether the machine has
    halted: a call that returns gives [0] or [1], it gives [0] exactly
    when it leaves the object in the halt state, and a call that gives [1]
    has counted one more step. *)
Theorem cython_step_verdict (m : TuringMachine) (v : Z) (m' : TuringMachine) :
  cython_step m = Ok (v, m') ->
  (v = 0 \/ v = 1)
  /\ (v = 0 <-> current_state m' = HALT_STATE)
  /\ (v = 1 -> steps_taken m' = steps_taken m + 1).
Proof.
  intros H. destruct (cython_step_in_int m v m' H) as [Hs Hh].
  destruct (cython_step_cases m Hs Hh)
    as [[H0 Hc]|[(H0 & Ht & Hc)|(ns & w & mv & H0 & Ht & Hc)]];
    rewrite Hc in H; injection H as <- <-.
  - split_and!; [by left|done|discriminate].
  - split_and!; [by left|done|discriminate].
  - destruct (decide (ns = HALT_STATE)) as [Hns|Hns]; simpl.
    + split_and!; [by left|done|discriminate].
    + split_and!; [by right| |done]. split; [discriminate|done].
Qed.

Lemma cython_step_verdict_witness :
  1 = 0 <-> current_state (step_obj (initial_machine demo_table 2 "0")) = HALT_STATE.
Proof.
  assert (H : cython_step (initial_machine demo_table 2 "0")
              = Ok (1, step_obj (initial_machine demo_table 2 "0")))
    by (vm_compute; reflexivity).
  exact (proj1 (proj2 (cython_step_verdict _ _ _ H))).
Defined.

(** X11.  [cython_step] fails in one way only: it raises exactly when the
    state or the head position of the object does not fit a C [int], and
    the exception is then [OverflowError]. *)
Theorem cython_step_raises_iff (m : TuringMachine) (e : exn) :
  cython_step m = Raise e
  <-> e = OverflowError
      /\ (~ in_int (current_state m) \/ ~ in_int (head_position m)).
Proof.
  destruct (in_int_dec (current_state m)) as [Hs|Hs].
  2:{ unfold cython_step. rewrite (as_int_raise _ Hs). cbn [mbind result_bind].
      split; [intros [= <-]; split; [done|by left] | by intros [-> _]]. }
  destruct (in_int_dec (head_position m)) as [Hh|Hh].
  2:{ unfold cython_step. rewrite (as_int_ok _ Hs), (as_int_raise _ Hh).
      cbn [mbind result_bind].
      split; [intros [= <-]; split; [done|by right] | by intros [-> _]]. }
  split.
  - intros H.
    destruct (cython_step_cases m Hs Hh)
      as [[H0 Hc]|[(H0 & Ht & Hc)|(ns & w & mv & H0 & Ht & Hc)]];
      rewrite Hc in H; discriminate.
  - intros [_ [H|H]]; done.
Qed.

(** ** Runs *)

Lemma steps_add (j k : nat) (m : TuringMachine) :
  steps (j + k) m = steps k (steps j m).
Proof. revert m. induction j as [|j IH]; intros m; [done|]. simpl. apply IH. Qed.

Lemma step_obj_halted (m : TuringMachine) :
  current_state m = HALT_STATE -> step_obj m = m.
Proof.
  intros H. destruct (step_obj_cases m)
    as [[_ E]|[(_ & _ & H0 & _)|(ns & w & mv & _ & _ & H0 & _)]]; done.
Qed.

(** X12.  Halting is final: once a run of [cython_step] calls has brought
    the object into the halt state, further calls leave every attribute
    of the object as it is. *)
Theorem halted_machine_is_fixed (m : TuringMachine) (j k : nat) :
  current_state (steps j m) = HALT_STATE ->
  steps (j + k) m = steps j m.
Proof.
  intros H. rewrite steps_add. generalize dependent (steps j m). clear m.
  induction k as [|k IH]; intros m H; [done|].
  simpl. rewrite (step_obj_halted m H). by apply IH.
Qed.

Lemma halted_machine_is_fixed_witness :
  steps (2 + 5) (initial_machine demo_table 2 "1")
  = steps 2 (initial_machine demo_table 2 "1").
Proof.
  apply (halted_machine_is_fixed (initial_machine demo_table 2 "1") 2 5).
  vm_compute. reflexivity.
Defined.

Lemma tape_getitem_stored (blank : string) (tp : gmap Z string) (pos p : Z) (s : string) :
  (tape_getitem blank tp pos).2 !! p = Some s ->
  tp !! p = Some s \/ (p = pos /\ s = blank).
Proof.
  unfold tape_getitem. destruct (tp !! pos) eqn:E; simpl; [by left|].
  rewrite lookup_insert. destruct (decide (pos = p)) as [->|Hne]; [|by left].
  intros [= <-]. by right.
Qed.

Lemma steps_run_invariant (table : tm_table) (n : Z) (blank : string) (k : nat) :
  1 <= n -> valid_table table n ->
  let m := steps k (initial_machine table n blank) in
  transition_table m = table /\ blank_symbol m = blank
  /\ 0 <= steps_taken m <= Z.of_nat k
  /\ min_visited m <= 0 <= max_visited m
  /\ min_visited m <= head_position m <= max_visited m
  /\ max_visited m - min_visited m <= steps_taken m
  /\ 0 <= current_state m <= n
  /\ (forall p s, tape m !! p = Some s ->
        min_visited m <= p <= max_visited m
        /\ (s = blank \/ s = "0"%string \/ s = "1"%string))
  /\ (n <= int_max -> Z.of_nat k <= int_max ->
      current_state m = HALT_STATE \/ steps_taken m = Z.of_nat k).
Proof.
  intros Hn Hv. cbv zeta. induction k as [|k IH].
  { simpl. split_and!; try done; try lia. }
  rewrite steps_S_r. set (m := steps k (initial_machine table n blank)) in *.
  clearbody m.
  destruct IH as (Ht & Hb & Hst & H0 & Hhd & Hw & Hs & Htp & Hcount).
  replace (Z.of_nat (S k)) with (Z.of_nat k + 1) by lia.
  destruct (step_obj_cases m)
    as [[HN E]|[(Hsi & Hhi & Hact & Hnone & E)|(ns & w & mv & Hsi & Hhi & Hact & Hsome & E)]];
    rewrite E; clear E.
  - split_and!; try done; try lia.
    intros Hn' Hk'. left.
    destruct HN as [HN|[HN|HN]]; [| |done]; exfalso; apply HN;
      unfold in_int, int_min, int_max in *; lia.
  - simpl. split_and!; try done; try lia.
    + unfold HALT_STATE. lia.
    + intros p s H. apply tape_getitem_stored in H as [H|[-> ->]].
      * by apply Htp.
      * split; [done|]. rewrite Hb. by left.
  - rewrite Ht in Hsome. destruct Hv as [_ HF].
    pose proof (HF _ _ Hsome) as Hvt. unfold valid_transition in Hvt.
    simpl in Hvt. destruct Hvt as [Hsym Hmove].
    simpl. split_and!; try done; try lia.
    + intros p s H. rewrite lookup_insert in H.
      destruct (decide (head_position m = p)) as [<-|Hne].
      * injection H as <-. split; [lia|]. right. exact Hsym.
      * apply tape_getitem_stored in H as [H|[-> ->]].
        -- destruct (Htp p s H) as [Hr Hs']. split; [lia|done].
        -- done.
Qed.

(** X13.  On a run of [k] calls of [cython_step] from the initial
    configuration of a valid table for [n >= 1] states: at most [k] steps
    are counted; the visited range contains cell 0 and the head, and is
    no wider than the number of steps counted; every cell stored in the
    tape dictionary lies in the visited range, so every cell outside it
    reads as blank; every cell reads as the blank symbol, ['0'] or ['1'];
    and the state stays within [0..n]. *)
Theorem run_visited_bounds (table : tm_table) (n : Z) (blank : string) (k : nat) :
  1 <= n -> valid_table table n ->
  let m := steps k (initial_machine table n blank) in
  0 <= steps_taken m <= Z.of_nat k
  /\ min_visited m <= 0 <= max_visited m
  /\ min_visited m <= head_position m <= max_visited m
  /\ max_visited m - min_visited m <= steps_taken m
  /\ (forall p, is_Some (tape m !! p) -> min_visited m <= p <= max_visited m)
  /\ (forall p, p < min_visited m \/ max_visited m < p -> tape_content m p = blank)
  /\ (forall p, tape_content m p = blank \/ tape_content m p = "0"%string
                \/ tape_content m p = "1"%string)
  /\ 0 <= current_state m <= n.
Proof.
  intros Hn Hv.
  destruct (steps_run_invariant table n blank k Hn Hv)
    as (_ & Hb & Hst & H0 & Hhd & Hw & Hs & Htp & _).
  cbv zeta. split_and!; try lia.
  - intros p [s Hp]. by apply (Htp p s).
  - intros p Hp. unfold tape_content. rewrite Hb.
    destruct (tape _ !! p) as [s|] eqn:E; [|done].
    destruct (Htp p s E) as [Hr _]. lia.
  - intros p. unfold tape_content. rewrite Hb.
    destruct (tape _ !! p) as [s|] eqn:E; simpl; [|by left].
    by destruct (Htp p s E) as [_ Hsym].
Qed.

Lemma run_visited_bounds_witness :
  let m := steps 5 (initial_machine demo_table 2 "0") in
  max_visited m - min_visited m <= steps_taken m.
Proof.
  assert (Hv : valid_table demo_table 2) by vm_compute_decide.
  exact (proj1 (proj2 (proj2 (proj2
           (run_visited_bounds demo_table 2 "0" 5 ltac:(lia) Hv))))).
Defined.

(** X14.  With a blank symbol of the alphabet, a run from the initial
    configuration of a valid table for [n] states never meets a missing
    transition or an overflow within [2^31 - 1] calls: after [k] calls the
    state and the head position fit a C [int], and if the machine has not
    halted, the transition for its state and the symbol under the head is
    defined and exactly [k] steps have been counted. *)
Theorem valid_run_is_total (table : tm_table) (n : Z) (blank : string) (k : nat) :
  1 <= n <= int_max -> valid_table table n ->
  blank = "0"%string \/ blank = "1"%string ->
  Z.of_nat k <= int_max ->
  let m := steps k (initial_machine table n blank) in
  in_int (current_state m) /\ in_int (head_position m)
  /\ (current_state m <> HALT_STATE ->
      is_Some (transition_table m !! (current_state m, tape_content m (head_position m)))
      /\ steps_taken m = Z.of_nat k).
Proof.
  intros Hn Hv Hblank Hk.
  destruct (steps_run_invariant table n blank k ltac:(lia) Hv)
    as (Ht & Hb & Hst & H0 & Hhd & Hw & Hs & Htp & Hcount).
  cbv zeta. set (m := steps k (initial_machine table n blank)) in *. clearbody m.
  split_and!.
  - unfold in_int, int_min, int_max in *. lia.
  - unfold in_int, int_min, int_max in *. lia.
  - intros Hact. split.
    + assert (Hsym : tape_content m (head_position m) = "0"%string
                     \/ tape_content m (head_position m) = "1"%string).
      { unfold tape_content. rewrite Hb.
        destruct (tape m !! head_position m) as [s|] eqn:E; simpl; [|done].
        destruct (Htp _ _ E) as [_ [->|H]]; done. }
      rewrite Ht.
      destruct (valid_table_lookup table n (current_state m) _ Hv
                  ltac:(unfold HALT_STATE in Hact; lia) Hsym) as (tr & -> & _).
      by eexists.
    + destruct (Hcount ltac:(lia) Hk); done.
Qed.

Lemma valid_run_is_total_witness :
  steps_taken (steps 3 (initial_machine pingpong_table 2 "0")) = 3.
Proof.
  assert (Hv : valid_table pingpong_table 2) by vm_compute_decide.
  assert (Hn : 1 <= 2 <= int_max) by (vm_compute; split; discriminate).
  assert (Hk : Z.of_nat 3 <= int_max) by (vm_compute; discriminate).
  assert (Hact : current_state (steps 3 (initial_machine pingpong_table 2 "0"))
                 <> HALT_STATE) by (vm_compute; discriminate).
  exact (proj2 (proj2 (proj2
           (valid_run_is_total pingpong_table 2 "0" 3 Hn Hv (or_introl eq_refl) Hk)) Hact)).
Defined.

(** * Further properties of the runtime filters *)

(** ** The filters do not disturb the simulation *)

Lemma step_obj_same_counters (m1 m2 : TuringMachine) :
  same_config m1 m2 ->
  min_visited m1 = min_visited m2 ->
  max_visited m1 = max_visited m2 ->
  steps_taken m1 = steps_taken m2 ->
  min_visited (step_obj m1) = min_visited (step_obj m2)
  /\ max_visited (step_obj m1) = max_visited (step_obj m2)
  /\ steps_taken (step_obj m1) = steps_taken (step_obj m2).
Proof.
  intros (Ht & Hb & Hs & Hh & Hc) Hmin Hmax Hst.
  assert (Hkey : transition_table m1 !! (current_state m1, tape_content m1 (head_position m1))
                 = transition_table m2 !! (current_state m2, tape_content m2 (head_position m2)))
    by (by rewrite Ht, Hs, Hh, Hc).
  destruct (step_obj_cases m1)
    as [[HN1 E1]|[(Hsi1 & Hhi1 & Hact1 & Hl1 & E1)
                 |(ns1 & w1 & mv1 & Hsi1 & Hhi1 & Hact1 & Hl1 & E1)]];
    destruct (step_obj_cases m2)
      as [[HN2 E2]|[(Hsi2 & Hhi2 & Hact2 & Hl2 & E2)
                   |(ns2 & w2 & mv2 & Hsi2 & Hhi2 & Hact2 & Hl2 & E2)]];
    rewrite E1, E2; simpl; try done;
    try (exfalso; rewrite Hs, Hh in HN1; destruct HN1 as [?|[?|?]]; done);
    try (exfalso; rewrite <- Hs, <- Hh in HN2; destruct HN2 as [?|[?|?]]; done);
    try (exfalso; congruence).
  assert (mv1 = mv2) as -> by congruence.
  rewrite Hh, Hmin, Hmax, Hst. done.
Qed.

Lemma steps_same_counters (k : nat) (m1 m2 : TuringMachine) :
  same_config m1 m2 ->
  min_visited m1 = min_visited m2 ->
  max_visited m1 = max_visited m2 ->
  steps_taken m1 = steps_taken m2 ->
  min_visited (steps k m1) = min_visited (steps k m2)
  /\ max_visited (steps k m1) = max_visited (steps k m2)
  /\ steps_taken (steps k m1) = steps_taken (steps k m2).
Proof.
  revert m1 m2. induction k as [|k IH]; intros m1 m2 Hc Hmin Hmax Hst; [done|].
  simpl. destruct (step_obj_same_counters m1 m2 Hc Hmin Hmax Hst) as (H1 & H2 & H3).
  apply IH; [by apply step_obj_same_config|done..].
Qed.

Lemma check_escapee_steps_taken (m : TuringMachine) (b : bool) (m2 : TuringMachine) :
  check_escapee m = Ok (b, m2) -> steps_taken m2 = steps_taken m.
Proof.
  unfold check_escapee. destruct (_escapee_seen_positions m) as [seen|].
  - destruct (as_int (head_position m)) as [h|]; [|done]. cbn [mbind result_bind].
    destruct (tape_getitem (blank_symbol m) (tape m) h) as [s tp].
    destruct (bool_decide _ && bool_decide _).
    + cbn [_escapee_blank_run_count set_tape].
      destruct (_escapee_blank_run_count m) as [r|]; [|done].
      cbn [mbind result_bind getattr set_escapee_blank_run_count
           set_escapee_seen_positions _escapee_blank_run_count num_states].
      intros Hres. by destruct (decide _); injection Hres as _ <-.
    + cbn [mbind result_bind getattr set_escapee_blank_run_count
           _escapee_blank_run_count num_states set_tape].
      intros Hres. by destruct (decide _); injection Hres as _ <-.
  - by intros [= _ <-].
Qed.

(** X15.  The filters are transparent to the simulation: after a query of
    [check_escapee] or [check_cycle_two], any number [k] of calls of
    [cython_step] leads to the same state, head position, cell contents,
    visited range and step count as without the query, although
    [check_escapee] may have stored a blank cell in the tape dictionary. *)
Theorem filter_queries_do_not_disturb (m : TuringMachine) (k : nat) :
  let undisturbed := fun m' : TuringMachine =>
    same_config (steps k m') (steps k m)
    /\ min_visited (steps k m') = min_visited (steps k m)
    /\ max_visited (steps k m') = max_visited (steps k m)
    /\ steps_taken (steps k m') = steps_taken (steps k m) in
  (forall b m', check_escapee m = Ok (b, m') -> undisturbed m')
  /\ undisturbed (check_cycle_two m).2.
Proof.
  cbv zeta. split.
  - intros b m' H. pose proof (check_escapee_steps_taken m b m' H) as Hst.
    destruct (check_escapee_spec m b m' H) as [(?&?&?&?&?&?&?&?&?) _].
    assert (Hc : same_config m' m) by (by split_and!).
    split; [by apply steps_same_config|]. by apply steps_same_counters.
  - rewrite check_cycle_two_unfold. cbn [snd].
    assert (Hc : same_config
                   (set_cycle_history
                      (deque_append 3 (default [] (_cycle_history m)) (config_of m)) m) m)
      by (by split_and!).
    split; [by apply steps_same_config|]. by apply steps_same_counters.
Qed.

(** ** What the run loop leaves alone *)

(** X16.  Along the run loop, the kernels never change the transition
    table, the state count or the blank symbol of the object, and the
    attributes of a filter that is not enabled are never created. *)
Theorem run_loop_frame (table : tm_table) (n : Z) (blank : string)
    (use_escapee use_cycle_two : bool) (st : stage) (m : TuringMachine) :
  reaches table n blank use_escapee use_cycle_two st m ->
  transition_table m = table /\ num_states m = n /\ blank_symbol m = blank
  /\ (use_escapee = false ->
      _escapee_seen_positions m = None /\ _escapee_blank_run_count m = None)
  /\ (use_cycle_two = false -> _cycle_history m = None).
Proof.
  induction 1 as [|m v m' Hr IH Hq Hstep|m m' c Hue Hr IH Hesc
                  |m m' e Huc Hr IH Hcyc|m e c Hr IH He Hc].
  - simpl. by split_and!.
  - destruct IH as (Ht & Hn & Hb & Hesc & Hcyc).
    destruct (cython_step_rel m v m' Hstep) as (Et & Eb & En & Es & Er & _).
    rewrite Et, Eb, En, Es, Er, (cython_step_history m v m' Hstep). by split_and!.
  - destruct IH as (Ht & Hn & Hb & _ & Hcyc).
    destruct (check_escapee_spec m false m' Hesc)
      as [(Et & Eb & En & _ & _ & _ & _ & Eh & _) _].
    rewrite Et, Eb, En, Eh. split_and!; try done. by rewrite Hue.
  - destruct IH as (Ht & Hn & Hb & Hesc & _).
    rewrite check_cycle_two_unfold in Hcyc. injection Hcyc as _ <-. simpl.
    split_and!; try done. by rewrite Huc.
  - exact IH.
Qed.

Lemma run_loop_frame_witness :
  let m1 := escapee_iteration (initial_machine runaway_table 1 "0") in
  transition_table m1 = runaway_table /\ _cycle_history m1 = None.
Proof.
  set (m0 := initial_machine runaway_table 1 "0").
  set (m1 := escapee_iteration m0).
  assert (R0 : reaches runaway_table 1 "0" true false LoopTop m0)
    by apply reaches_init.
  assert (R1 : reaches runaway_table 1 "0" true false LoopTop m1).
  { apply (reaches_next _ _ _ _ _ m1 true false); [|done|done].
    apply (reaches_escapee _ _ _ _ _ (step_obj m0) m1 false); [done| |by vm_compute].
    apply (reaches_step _ _ _ _ _ m0 1 (step_obj m0) R0); [done|by vm_compute]. }
  destruct (run_loop_frame runaway_table 1 "0" true false LoopTop m1 R1)
    as (Ht & _ & _ & _ & Hc).
  split; [exact Ht|]. by apply Hc.
Defined.

(** ** Failures of [check_escapee] *)

(** X17.  [check_escapee] raises in two situations only, both on an
    object that already has [_escapee_seen_positions]: [OverflowError] if
    the head position does not fit a C [int], and [AttributeError] if the
    head is on a blank cell not yet recorded while the object has no
    [_escapee_blank_run_count].  The first query of an object never
    raises. *)
Theorem check_escapee_raises_iff (m : TuringMachine) (e : exn) :
  check_escapee m = Raise e
  <-> exists seen,
        _escapee_seen_positions m = Some seen
        /\ ((e = OverflowError /\ ~ in_int (head_position m))
            \/ (e = AttributeError /\ in_int (head_position m)
                /\ _escapee_blank_run_count m = None
                /\ tape_content m (head_position m) = blank_symbol m
                /\ head_position m ∉ seen)).
Proof.
  unfold check_escapee. destruct (_escapee_seen_positions m) as [seen|] eqn:Hseen.
  2:{ split; [discriminate|]. by intros (? & [=] & _). }
  destruct (in_int_dec (head_position m)) as [Hh|Hh].
  2:{ rewrite (as_int_raise _ Hh). cbn [mbind result_bind]. split.
      - intros [= <-]. exists seen. split; [done|]. left. done.
      - intros (? & _ & [[-> _]|(_ & ? & _)]); done. }
  rewrite (as_int_ok _ Hh). cbn [mbind result_bind].
  pose proof (tape_getitem_content m (head_position m)) as Hc.
  destruct (tape_getitem (blank_symbol m) (tape m) (head_position m)) as [s tp].
  simpl in Hc. subst s. cbn [blank_symbol set_tape].
  destruct (bool_decide (tape_content m (head_position m) = blank_symbol m)
            && bool_decide (head_position m ∉ seen)) eqn:E.
  - apply andb_true_iff in E as [E1 E2].
    apply bool_decide_eq_true in E1. apply bool_decide_eq_true in E2.
    cbn [_escapee_blank_run_count set_tape].
    destruct (_escapee_blank_run_count m) as [r|] eqn:Hrun.
    + cbn [mbind result_bind getattr set_escapee_blank_run_count
           set_escapee_seen_positions _escapee_blank_run_count num_states].
      split.
      * by destruct (decide _).
      * intros (? & _ & [[_ ?]|(_ & _ & ? & _)]); done.
    + cbn [mbind result_bind getattr]. split.
      * intros [= <-]. exists seen. split; [done|]. right. done.
      * intros (? & _ & [[_ ?]|(-> & _)]); done.
  - cbn [mbind result_bind getattr set_escapee_blank_run_count
         _escapee_blank_run_count num_states set_tape].
    split.
    + by destruct (decide _).
    + intros (seen' & [= <-] & [[_ ?]|(_ & _ & _ & H1 & H2)]); [done|].
      apply andb_false_iff in E as [E|E]; apply bool_decide_eq_false in E; done.
Qed.

(** ** What the escapee filter records *)

Lemma reaches_seen_visited (table : tm_table) (n : Z) (blank : string)
    (use_escapee use_cycle_two : bool) (st : stage) (m : TuringMachine) :
  reaches table n blank use_escapee use_cycle_two st m ->
  min_visited m <= head_position m <= max_visited m
  /\ forall S, _escapee_seen_positions m = Some S ->
       forall p, p ∈ S -> min_visited m <= p <= max_visited m.
Proof.
  induction 1 as [|m v m' Hr IH Hq Hstep|m m' c _ Hr IH Hesc
                  |m m' e Huc Hr IH Hcyc|m e c Hr IH He Hc].
  - simpl. split; [lia|done].
  - destruct IH as [Hhd Hseen].
    assert (E : step_obj m = m') by (unfold step_obj; by rewrite Hstep).
    destruct (step_obj_visited m) as (Hmin & Hmax & Hbr). rewrite E in *.
    destruct (cython_step_rel m v m' Hstep) as (_ & _ & _ & Hs & _).
    split; [by apply Hbr|]. intros S HS p Hp. rewrite Hs in HS.
    specialize (Hseen S HS p Hp). lia.
  - destruct IH as [Hhd Hseen].
    destruct (check_escapee_spec m false m' Hesc)
      as [(_ & _ & _ & _ & Hh & Hmin & Hmax & _ & _) Hupd].
    rewrite Hh, Hmin, Hmax. split; [done|]. intros S HS p Hp.
    destruct (_escapee_seen_positions m) as [seen|].
    + destruct (bool_decide _ && bool_decide _).
      * destruct Hupd as (r & _ & HS' & _). rewrite HS' in HS. injection HS as <-.
        apply elem_of_union in Hp as [Hp|Hp]; [by apply (Hseen seen)|].
        apply elem_of_singleton in Hp as ->. done.
      * destruct Hupd as (HS' & _). rewrite HS' in HS. injection HS as <-.
        by apply (Hseen seen).
    + destruct Hupd as (_ & HS' & _). rewrite HS' in HS. injection HS as <-.
      apply elem_of_singleton in Hp as ->. done.
  - rewrite check_cycle_two_unfold in Hcyc. injection Hcyc as _ <-. exact IH.
  - exact IH.
Qed.

(** X18.  What [_escapee_seen_positions] holds at the top of every
    iteration of the run loop (valid table for [n >= 1] states, escapee
    filter enabled): every cell of the visited range other than cell 0,
    and only cells of the visited range. *)
Theorem escapee_seen_covers_visited (table : tm_table) (n : Z) (blank : string)
    (use_cycle_two : bool) (m : TuringMachine) (S : gset Z) :
  1 <= n -> valid_table table n ->
  reaches table n blank true use_cycle_two LoopTop m ->
  _escapee_seen_positions m = Some S ->
  (forall p, min_visited m <= p <= max_visited m -> p <> 0 -> p ∈ S)
  /\ (forall p, p ∈ S -> min_visited m <= p <= max_visited m).
Proof.
  intros Hn Hv Hr HS. split.
  - pose proof (reaches_escapee_inv table n blank Hn Hv use_cycle_two LoopTop m Hr) as Hinv.
    simpl in Hinv. unfold escapee_inv in Hinv.
    destruct Hinv as (_ & _ & _ & _ & _ & _ & Hm). rewrite HS in Hm.
    destruct (_escapee_blank_run_count m); [|done]. by destruct Hm as [Hcov _].
  - destruct (reaches_seen_visited _ _ _ _ _ _ _ Hr) as [_ H]. by apply H.
Qed.

Lemma escapee_seen_covers_visited_witness :
  let m2 := escapee_iteration (escapee_iteration (initial_machine runaway_table 1 "0")) in
  2 ∈ default ∅ (_escapee_seen_positions m2)
  /\ min_visited m2 <= 2 <= max_visited m2.
Proof.
  set (m0 := initial_machine runaway_table 1 "0").
  set (m1 := escapee_iteration m0). set (m2 := escapee_iteration m1).
  assert (Hv : valid_table runaway_table 1) by vm_compute_decide.
  assert (R0 : reaches runaway_table 1 "0" true false LoopTop m0)
    by apply reaches_init.
  assert (R1 : reaches runaway_table 1 "0" true false LoopTop m1).
  { apply (reaches_next _ _ _ _ _ m1 true false); [|done|done].
    apply (reaches_escapee _ _ _ _ _ (step_obj m0) m1 false); [done| |by vm_compute].
    apply (reaches_step _ _ _ _ _ m0 1 (step_obj m0) R0); [done|by vm_compute]. }
  assert (R2 : reaches runaway_table 1 "0" true false LoopTop m2).
  { apply (reaches_next _ _ _ _ _ m2 true false); [|done|done].
    apply (reaches_escapee _ _ _ _ _ (step_obj m1) m2 false); [done| |by vm_compute].
    apply (reaches_step _ _ _ _ _ m1 1 (step_obj m1) R1); [done|by vm_compute]. }
  assert (HS : _escapee_seen_positions m2 = Some (default ∅ (_escapee_seen_positions m2)))
    by (vm_compute; reflexivity).
  destruct (escapee_seen_covers_visited runaway_table 1 "0" false m2 _
              ltac:(lia) Hv R2 HS) as [Hcov Hsub].
  assert (Hin : 2 ∈ default ∅ (_escapee_seen_positions m2))
    by (apply Hcov; [vm_compute; split; discriminate|discriminate]).
  split; [exact Hin|]. apply Hsub. exact Hin.
Defined.

(** ** Detection of period-2 cycles *)

Lemma deque_append_drop {A} (h : list A) (x : A) :
  deque_append 3 h x = drop (length h - 2) h ++ [x].
Proof.
  unfold deque_append. rewrite length_app. simpl.
  rewrite drop_app_le by lia. do 2 f_equal. lia.
Qed.

Lemma deque_append_thrice {A} (h : list A) (a b c : A) :
  deque_append 3 (deque_append 3 (deque_append 3 h a) b) c = [a; b; c].
Proof.
  rewrite (deque_append_drop h a).
  assert (Hlen : (length (drop (length h - 2) h) <= 2)%nat) by (rewrite length_drop; lia).
  generalize dependent (drop (length h - 2) h). intros t Hlen.
  rewrite !deque_append_drop.
  destruct t as [|x [|y [|z t]]]; simpl in *; [done..|lia].
Qed.

Lemma step_obj_set_cycle_history (h : list config) (m : TuringMachine) :
  step_obj (set_cycle_history h m) = set_cycle_history h (step_obj m).
Proof.
  destruct (step_obj_cases m)
    as [[HN E]|[(Hsi & Hhi & Hact & Hl & E)|(ns & w & mv & Hsi & Hhi & Hact & Hl & E)]];
    destruct (step_obj_cases (set_cycle_history h m))
      as [[HN' E']|[(Hsi' & Hhi' & Hact' & Hl' & E')
                   |(ns' & w' & mv' & Hsi' & Hhi' & Hact' & Hl' & E')]];
    rewrite E, E'; simpl in *; try done;
    try (exfalso; destruct HN as [?|[?|?]]; done);
    try (exfalso; destruct HN' as [?|[?|?]]; done);
    try (exfalso; unfold tape_content in *; simpl in *; congruence).
  unfold tape_content in *; simpl in *.
  assert (ns' = ns /\ w' = w /\ mv' = mv) as (-> & -> & ->)
    by (split_and!; congruence).
  done.
Qed.

Lemma step_obj_history (m : TuringMachine) :
  _cycle_history (step_obj m) = _cycle_history m.
Proof.
  destruct (step_obj_cases m)
    as [[_ E]|[(_ & _ & _ & _ & E)|(ns & w & mv & _ & _ & _ & _ & E)]];
    by rewrite E.
Qed.

Lemma cycle_two_iteration_history (h : list config) (m : TuringMachine) :
  cycle_two_iteration (set_cycle_history h m)
  = set_cycle_history (deque_append 3 h (config_of (step_obj m))) (step_obj m).
Proof.
  unfold cycle_two_iteration. rewrite check_cycle_two_unfold. cbn [snd].
  rewrite step_obj_history, step_obj_set_cycle_history. reflexivity.
Qed.

Lemma cycle_two_iteration_first (m : TuringMachine) :
  cycle_two_iteration m
  = set_cycle_history
      (deque_append 3 (default [] (_cycle_history m)) (config_of (step_obj m)))
      (step_obj m).
Proof.
  unfold cycle_two_iteration. rewrite check_cycle_two_unfold. cbn [snd].
  by rewrite step_obj_history.
Qed.

Lemma insert_tape_getitem (blank : string) (tp : gmap Z string) (pos : Z) (w : string) :
  <[pos := w]> (tape_getitem blank tp pos).2 = <[pos := w]> tp.
Proof.
  unfold tape_getitem. destruct (tp !! pos); simpl; [done|]. apply insert_insert_eq.
Qed.

Lemma active_step (m : TuringMachine) :
  in_int (current_state m) -> in_int (head_position m) ->
  current_state (step_obj m) <> HALT_STATE ->
  exists ns w mv,
    transition_table m !! (current_state m, tape_content m (head_position m))
    = Some (ns, w, mv)
    /\ current_state (step_obj m) = ns
    /\ head_position (step_obj m) = head_position m + mv
    /\ tape (step_obj m) = <[head_position m := w]> (tape m).
Proof.
  intros Hs Hh Hact.
  destruct (step_obj_cases m)
    as [[HN E]|[(_ & _ & _ & _ & E)|(ns & w & mv & _ & _ & _ & Hl & E)]];
    rewrite E in Hact |- *.
  - destruct HN as [?|[?|?]]; done.
  - done.
  - exists ns, w, mv. simpl. split_and!; try done. apply insert_tape_getitem.
Qed.

Lemma insert_pair_twice {A} (T : gmap Z A) (a b : Z) (x y : A) :
  <[a := x]> (<[b := y]> (<[a := x]> (<[b := y]> T))) = <[a := x]> (<[b := y]> T).
Proof.
  apply map_eq. intros i. rewrite !lookup_insert.
  destruct (decide (a = i)); [done|]. by destruct (decide (b = i)).
Qed.

(** X19.  The period-2 filter catches every period-2 cycle within four
    steps: if the configuration of an active machine (state, head
    position and cell contents) recurs after two calls of [cython_step],
    the fourth query of [check_cycle_two] in the run loop answers [True];
    by then the two tape dictionaries hold the same cells. *)
Theorem cycle_two_catches_period_two (m : TuringMachine) :
  in_int (current_state m) -> in_int (head_position m) ->
  in_int (current_state (step_obj m)) -> in_int (head_position (step_obj m)) ->
  current_state (step_obj m) <> HALT_STATE ->
  same_config (steps 2 m) m ->
  (check_cycle_two
     (step_obj (cycle_two_iteration (cycle_two_iteration (cycle_two_iteration m))))).1
  = true.
Proof.
  intros Hs0 Hh0 Hs1 Hh1 Hact1 Hper. simpl in Hper.
  set (x1 := step_obj m) in *. set (x2 := step_obj x1) in *.
  set (x3 := step_obj x2). set (x4 := step_obj x3).
  assert (Hper1 : same_config x3 x1) by (by apply step_obj_same_config).
  assert (Hper2 : same_config x4 x2) by (by apply step_obj_same_config).
  destruct Hper as (Et0 & Eb0 & Es0 & Eh0 & Ec0).
  destruct Hper1 as (Et1 & Eb1 & Es1 & Eh1 & Ec1).
  destruct Hper2 as (Et2 & Eb2 & Es2 & Eh2 & Ec2).
  assert (Hact0 : current_state m <> HALT_STATE).
  { intros H. apply Hact1. unfold x1. by rewrite (step_obj_halted m H). }
  destruct (active_step m Hs0 Hh0 Hact1) as (ns0 & w0 & mv0 & Hl0 & _ & _ & Htp1).
  fold x1 in Htp1.
  destruct (active_step x1 Hs1 Hh1) as (ns1 & w1 & mv1 & Hl1 & _ & _ & Htp2).
  { fold x2. by rewrite Es0. }
  fold x2 in Htp2.
  destruct (active_step x2) as (ns2 & w2 & mv2 & Hl2 & _ & _ & Htp3).
  { by rewrite Es0. } { by rewrite Eh0. } { fold x3. by rewrite Es1. }
  fold x3 in Htp3.
  destruct (active_step x3) as (ns3 & w3 & mv3 & Hl3 & _ & _ & Htp4).
  { by rewrite Es1. } { by rewrite Eh1. } { fold x4. rewrite Es2, Es0. done. }
  fold x4 in Htp4.
  rewrite Et0, Es0, Eh0, Ec0, Hl0 in Hl2. injection Hl2 as _ <- _.
  rewrite Et1, Es1, Eh1, Ec1, Hl1 in Hl3. injection Hl3 as _ <- _.
  assert (Htape : tape x4 = tape x2).
  { rewrite Htp4, Htp3, Eh1, Eh0, Htp2, Htp1. apply insert_pair_twice. }
  assert (Hcfg : config_of x4 = config_of x2).
  { unfold config_of. by rewrite Es2, Eh2, Htape. }
  rewrite (cycle_two_iteration_first m). fold x1.
  rewrite cycle_two_iteration_history. fold x2.
  rewrite cycle_two_iteration_history. fold x3.
  rewrite step_obj_set_cycle_history. fold x4.
  rewrite check_cycle_two_unfold. cbn [fst].
  change (_cycle_history (set_cycle_history ?h x4)) with (Some h).
  change (config_of (set_cycle_history ?h x4)) with (config_of x4).
  cbn [default]. rewrite deque_append_thrice, Hcfg.
  apply andb_true_intro. split; apply bool_decide_eq_true_2; reflexivity.
Qed.

Lemma cycle_two_catches_period_two_witness :
  let m := initial_machine pingpong_table 2 "0" in
  (check_cycle_two
     (step_obj (cycle_two_iteration (cycle_two_iteration (cycle_two_iteration m))))).1
  = true.
Proof.
  intros m.
  assert (Htape : tape (steps 2 m) = <[1 := "0"%string]> (<[0 := "0"%string]> ∅))
    by (vm_compute; reflexivity).
  apply (cycle_two_catches_period_two m);
    try (vm_compute; split; discriminate); try (vm_compute; discriminate).
  split_and!; try reflexivity.
  intros p. unfold tape_content. rewrite Htape. rewrite !lookup_insert.
  destruct (decide (1 = p)); [done|]. destruct (decide (0 = p)); done.
Defined.
